(** * tensorly/tenalg/svd.py: a shallow embedding and its verification

    The module orchestrates four SVD strategies over a numeric backend,
    a sign-correction pass ([svd_flip]) and the NNDSVD initialisation
    ([make_svd_non_negative]).

    Scalars are modelled as exact real numbers ([R]): rounding, NaN and
    signed zeros of IEEE arithmetic are outside this model.  A 2-D array
    is a [mat] (its two dimensions and its entries by rows), a 1-D
    array is a [list R], and the raw argument of a strategy is a [tensor]
    that still carries its full shape, so that the [ndim] test of the
    source can be written down. *)

From Stdlib Require Import String Ascii DecimalString.
From Stdlib Require Import Reals Lra Lia Bool Arith ZArith List.
Import ListNotations.

Local Open Scope R_scope.

(* ------------------------------------------------------------------ *)
(** ** Exceptions and results *)

Inductive exn : Type :=
| ValueError (msg : string)
| IndexError (msg : string).

Inductive result (A : Type) : Type :=
| Ok (a : A)
| Err (e : exn).

Arguments Ok {A} a.
Arguments Err {A} e.

Definition rbind {A B : Type} (r : result A) (k : A -> result B) : result B :=
  match r with
  | Ok a => k a
  | Err e => Err e
  end.

(* ------------------------------------------------------------------ *)
(** ** Scalars *)

Definition Rltb (x y : R) : bool := if Rlt_dec x y then true else false.
Definition Rleb (x y : R) : bool := if Rle_dec x y then true else false.

(** [tl.sign]: -1, 0 or 1. *)
Definition sign (x : R) : R :=
  if Rltb 0 x then 1 else if Rltb x 0 then -1 else 0.

(** [tl.clip(x, a_min=lo)] and [tl.clip(x, a_max=hi)]. *)
Definition clip_min (lo x : R) : R := if Rltb x lo then lo else x.
Definition clip_max (hi x : R) : R := if Rltb hi x then hi else x.

(* ------------------------------------------------------------------ *)
(** ** Vectors (1-D arrays) *)

Definition vector := list R.

Definition ones (n : nat) : vector := repeat 1 n.

(** Python's [v[:stop]] for a stop that may be absent or negative. *)
Definition slice_stop (stop : option Z) (len : nat) : nat :=
  match stop with
  | None => len
  | Some z =>
      if (z <? 0)%Z then Z.to_nat (Z.max 0 (Z.of_nat len + z))
      else Nat.min (Z.to_nat z) len
  end.

Definition vslice (stop : option Z) (v : vector) : vector :=
  firstn (slice_stop stop (length v)) v.

(** [numpy.argmax] of a non-empty sequence: the first index holding the
    maximum.  [best] is the index of the running maximum [bestv], [i] the
    index of the head of [l]. *)
Fixpoint argmax_from (best : nat) (bestv : R) (i : nat) (l : list R) : nat :=
  match l with
  | [] => best
  | x :: l' =>
      if Rltb bestv x then argmax_from i x (S i) l'
      else argmax_from best bestv (S i) l'
  end.

(** On an empty sequence numpy raises
    "attempt to get argmax of an empty sequence". *)
Definition argmax (l : list R) : result nat :=
  match l with
  | [] => Err (ValueError "attempt to get argmax of an empty sequence")
  | x :: l' => Ok (argmax_from 0%nat x 1%nat l')
  end.

(* ------------------------------------------------------------------ *)
(** ** Matrices (2-D arrays) *)

Record mat : Type := mkMatrix {
  nrows : nat;
  ncols : nat;
  rows : list (list R)
}.

Definition get (M : mat) (i j : nat) : R := nth j (nth i (rows M) []) 0.

(** The [r] x [c] mat whose entry (i, j) is [f i j]. *)
Definition tabulate2 (r c : nat) (f : nat -> nat -> R) : mat :=
  mkMatrix r c (map (fun i => map (fun j => f i j) (seq 0 c)) (seq 0 r)).

Definition mshape (M : mat) : nat * nat := (nrows M, ncols M).

Definition mmap (f : R -> R) (M : mat) : mat :=
  tabulate2 (nrows M) (ncols M) (fun i j => f (get M i j)).

Definition mabs : mat -> mat := mmap Rabs.

(** [M[:, j]] and [M[i, :]]. *)
Definition col (M : mat) (j : nat) : vector :=
  map (fun i => get M i j) (seq 0 (nrows M)).
Definition row (M : mat) (i : nat) : vector :=
  map (fun j => get M i j) (seq 0 (ncols M)).

(** [U * signs]: a 1-D array broadcast along the rows scales the columns. *)
Definition mul_cols (M : mat) (s : vector) : mat :=
  tabulate2 (nrows M) (ncols M) (fun i j => get M i j * nth j s 0).

(** [V * signs[:, None]]: a column vector scales the rows. *)
Definition mul_rows (M : mat) (s : vector) : mat :=
  tabulate2 (nrows M) (ncols M) (fun i j => get M i j * nth i s 0).

(** Collects the results of [f] over [l], stopping at the first error. *)
Fixpoint mapM {A B : Type} (f : A -> result B) (l : list A) : result (list B) :=
  match l with
  | [] => Ok []
  | a :: l' =>
      rbind (f a) (fun b => rbind (mapM f l') (fun bs => Ok (b :: bs)))
  end.

(** [tl.argmax(M, axis=0)]: one row index per column.  numpy refuses a
    reduction along an axis of length 0. *)
Definition argmax_axis0 (M : mat) : result (list nat) :=
  if (nrows M =? 0)%nat
  then Err (ValueError "attempt to get argmax of an empty sequence")
  else mapM (fun j => argmax (col M j)) (seq 0 (ncols M)).

(** [tl.argmax(M, axis=1)]: one column index per row. *)
Definition argmax_axis1 (M : mat) : result (list nat) :=
  if (ncols M =? 0)%nat
  then Err (ValueError "attempt to get argmax of an empty sequence")
  else mapM (fun i => argmax (row M i)) (seq 0 (nrows M)).

(* ------------------------------------------------------------------ *)
(** ** [svd_flip] *)

Definition svd_flip (U V : mat) (u_based_decision : bool)
  : result (mat * mat) :=
  if u_based_decision then
    (* columns of U, rows of V *)
    rbind (argmax_axis0 (mabs U)) (fun max_abs_cols =>
    let signs :=
      map sign
        (map (fun '(i, j) => get U i j)
             (combine max_abs_cols (seq 0 (ncols U)))) in
    let U := mul_cols U signs in
    let signs :=
      if (ncols U <? nrows V)%nat
      then signs ++ ones (nrows V - ncols U)
      else signs in
    let V := mul_rows V (vslice (Some (Z.of_nat (nrows V))) signs) in
    Ok (U, V))
  else
    (* rows of V, columns of U *)
    rbind (argmax_axis1 (mabs V)) (fun max_abs_rows =>
    let signs :=
      map sign
        (map (fun '(i, j) => get V i j)
             (combine (seq 0 (nrows V)) max_abs_rows)) in
    let V := mul_rows V signs in
    let signs :=
      if (nrows V <? ncols U)%nat
      then signs ++ ones (ncols U - nrows V)
      else signs in
    let U := mul_cols U (vslice (Some (Z.of_nat (ncols U))) signs) in
    Ok (U, V)).

(** *** Quantities the statements about [svd_flip] speak of *)

(** The index that [argmax] answers on a non-empty list. *)
Definition argmax_idx (l : list R) : nat :=
  match l with
  | [] => 0%nat
  | x :: l' => argmax_from 0%nat x 1%nat l'
  end.

(** Sign of the entry of largest magnitude in column [j] of [U], and in
    row [i] of [V]. *)
Definition col_sign (U : mat) (j : nat) : R :=
  sign (get U (argmax_idx (col (mabs U) j)) j).
Definition row_sign (V : mat) (i : nat) : R :=
  sign (get V i (argmax_idx (row (mabs V) i))).

(** A sign vector of [n] entries read past its end as +1. *)
Definition pad_sign (n : nat) (s : nat -> R) (j : nat) : R :=
  if (j <? n)%nat then s j else 1.

(* ------------------------------------------------------------------ *)
(** ** Raw arguments of the strategies *)

Inductive dtype : Type := float32 | float64.

(** Modelled from the spec: the "per-dtype machine epsilon" of the array
    backend ([tl.eps], [np.finfo(dtype).eps]), which is not part of this
    module.  Its values are those of IEEE arithmetic: 2^-23 in single and
    2^-52 in double precision. *)
Definition eps (d : dtype) : R :=
  match d with
  | float32 => / 2 ^ 23
  | float64 => / 2 ^ 52
  end.

(** An array as a strategy receives it: any number of dimensions, the
    entries in row-major order, its dtype, and whether it is a NumPy
    array ([isinstance(matrix, np.ndarray)]). *)
Record tensor : Type := mkTensor {
  shape : list nat;
  data : list R;
  tdtype : dtype;
  is_ndarray : bool
}.

Definition ndim (t : tensor) : nat := length (shape t).

(** [dim_1, dim_2 = tl.shape(matrix)], once [ndim] is known to be 2. *)
Definition shape2 (t : tensor) : nat * nat :=
  (nth 0 (shape t) 0%nat, nth 1 (shape t) 0%nat).

(** The 2-D view of a tensor of two dimensions. *)
Definition as_matrix (t : tensor) : mat :=
  let '(r, c) := shape2 t in
  tabulate2 r c (fun i j => nth (i * c + j) (data t) 0).

(** A computed matrix handed to a function that expects a raw array. *)
Definition of_matrix (d : dtype) (np : bool) (M : mat) : tensor :=
  mkTensor [nrows M; ncols M]
           (concat (map (fun i => row M i) (seq 0 (nrows M)))) d np.

Definition vsum (v : vector) : R := fold_right Rplus 0 v.

(** [tl.mean(tensor)]. *)
Definition mean (t : tensor) : R := vsum (data t) / INR (length (data t)).

(* ------------------------------------------------------------------ *)
(** ** More array operations *)

Definition zeros_like (M : mat) : mat :=
  tabulate2 (nrows M) (ncols M) (fun _ _ => 0).

Definition transpose (M : mat) : mat :=
  tabulate2 (ncols M) (nrows M) (fun i j => get M j i).

(** [tl.conj]: the identity on real entries. *)
Definition conj (M : mat) : mat := M.

(** [M[:, ::-1]], i.e. [tl.flip(M, axis=1)], and [tl.flip(M, axis=0)]. *)
Definition flip_cols (M : mat) : mat :=
  tabulate2 (nrows M) (ncols M) (fun i j => get M i (ncols M - 1 - j)).
Definition flip_rows (M : mat) : mat :=
  tabulate2 (nrows M) (ncols M) (fun i j => get M (nrows M - 1 - i) j).

(** [M[:, :stop]] and [M[:stop, :]]. *)
Definition slice_cols (stop : option Z) (M : mat) : mat :=
  tabulate2 (nrows M) (slice_stop stop (ncols M)) (fun i j => get M i j).
Definition slice_rows (stop : option Z) (M : mat) : mat :=
  tabulate2 (slice_stop stop (nrows M)) (ncols M) (fun i j => get M i j).

(** [np.diag(R)] of a 2-D array. *)
Definition diag (M : mat) : vector :=
  map (fun i => get M i i) (seq 0 (Nat.min (nrows M) (ncols M))).

(** The matrix product, entry by entry. *)
Definition dot (A B : mat) : mat :=
  tabulate2 (nrows A) (ncols B)
    (fun i j => vsum (map (fun k => get A i k * get B k j) (seq 0 (ncols A)))).

(** [tl.norm]: the Euclidean norm. *)
Definition norm (v : vector) : R := sqrt (vsum (map (fun x => x * x) v)).

(** [W[:, j] = v] and [H[i, :] = v] through [tl.index_update]. *)
Definition update_col (W : mat) (j : nat) (v : vector) : mat :=
  tabulate2 (nrows W) (ncols W)
    (fun i j' => if (j' =? j)%nat then nth i v 0 else get W i j').
Definition update_row (H : mat) (i : nat) (v : vector) : mat :=
  tabulate2 (nrows H) (ncols H)
    (fun i' j => if (i' =? i)%nat then nth j v 0 else get H i' j).

(** Modelled from the spec: [soft_thresholding] of [tenalg/proximal.py],
    which is not part of this module.  The spec has it zero the entries
    below the threshold ("soft-thresholding at epsilon"): the shrinkage
    operator sign(x) * max(|x| - threshold, 0). *)
Definition soft_thresholding (W : mat) (threshold : R) : mat :=
  mmap (fun x => sign x * clip_min 0 (Rabs x - threshold)) W.

(** [tl.where(W < eps, fill, W)]. *)
Definition where_lt (W : mat) (bound fill : R) : mat :=
  mmap (fun x => if Rltb x bound then fill else x) W.

(* ------------------------------------------------------------------ *)
(** ** Rendering of values in messages *)

(** [%d] and [{}] of an integer. *)
Definition str_of_nat (n : nat) : string := NilZero.string_of_uint (Nat.to_uint n).
Definition str_of_Z (z : Z) : string := NilZero.string_of_int (Z.to_int z).

Definition ndim_message (n : nat) : string :=
  ("matrix be a matrix. matrix.ndim is " ++ str_of_nat n ++ " != 2")%string.

Definition rank_warning (n_eigenvecs : Z) (max_dim : nat) : string :=
  ("Trying to compute SVD with n_eigenvecs=" ++ str_of_Z n_eigenvecs
   ++ ", which is larger than max(matrix.shape)=" ++ str_of_nat max_dim
   ++ ". Setting n_eigenvecs to " ++ str_of_nat max_dim)%string.

Definition numpy_warning : string :=
  ("In partial_svd: converting to NumPy."
   ++ " Check svd_funs for available alternatives if you want to avoid this.")%string.

(* ------------------------------------------------------------------ *)
(** ** Effects: warnings and backend calls, in order, and exceptions *)

Inductive prim : Type :=
| P_svd | P_eigh | P_eigsh | P_qr | P_dot | P_normal | P_uniform.

Inductive event : Type :=
| Warn (msg : string)      (* [warnings.warn(msg)] *)
| Call (p : prim).         (* a numeric primitive of the backend was run *)

Definition M (A : Type) : Type := (list event * result A)%type.

Definition ret {A : Type} (a : A) : M A := ([], Ok a).
Definition raise {A : Type} (e : exn) : M A := ([], Err e).
Definition bind {A B : Type} (m : M A) (k : A -> M B) : M B :=
  match m with
  | (t, Ok a) => let '(t', r) := k a in (t ++ t', r)
  | (t, Err e) => (t, Err e)
  end.
Definition warn (msg : string) : M unit := ([Warn msg], Ok tt).
Definition call (p : prim) : M unit := ([Call p], Ok tt).
Definition lift {A : Type} (r : result A) : M A := ([], r).

Notation "x <- m ;; k" := (bind m (fun x => k))
  (at level 61, m at next level, right associativity).
Notation "' p <- m ;; k" := (bind m (fun x => match x with p => k end))
  (at level 61, p pattern, m at next level, right associativity).
Notation "m ;;; k" := (bind m (fun _ => k))
  (at level 61, right associativity).

Definition trace {A : Type} (m : M A) : list event := fst m.
Definition outcome {A : Type} (m : M A) : result A := snd m.

Definition warnings_of (t : list event) : list string :=
  flat_map (fun e => match e with Warn msg => [msg] | Call _ => [] end) t.

(* ------------------------------------------------------------------ *)
(** ** The numeric backend *)

(** [random_state]: [None] or a seed. *)
Definition random_state := option nat.

(** The primitives the module orchestrates and does not implement: the
    dense SVD, the dense and the sparse symmetric eigensolvers, the
    reduced QR factorisation and the random generators. *)
Class Backend : Type := {
  (* [tl.svd(matrix, full_matrices)]: U, S, V *)
  backend_svd : mat -> bool -> mat * vector * mat;
  (* [tl.eigh(matrix)]: eigenvalues, eigenvectors *)
  backend_eigh : mat -> vector * mat;
  (* [scipy.sparse.linalg.eigsh(matrix, k, which="LM", v0)] *)
  backend_eigsh : mat -> nat -> vector -> vector * mat;
  (* [tl.qr(matrix)], [np.linalg.qr(matrix)]: Q, R *)
  backend_qr : mat -> mat * mat;
  (* [rng.normal(size=(rows, cols))] *)
  backend_normal : random_state -> nat -> nat -> mat;
  (* [rng.uniform(low, high, size)] *)
  backend_uniform : random_state -> R -> R -> nat -> vector
}.

Definition sorted_ascending (v : vector) : Prop :=
  forall i j, (i <= j < length v)%nat -> nth i v 0 <= nth j v 0.
Definition sorted_descending (v : vector) : Prop :=
  forall i j, (i <= j < length v)%nat -> nth j v 0 <= nth i v 0.
Definition all_nonneg (v : vector) : Prop := forall x, In x v -> 0 <= x.

(** What the module relies on from the primitives: the shapes they
    return, and the order of the values they return. *)
Class BackendSpec (B : Backend) : Prop := {
  svd_full_shape : forall A,
    let '(U, Sv, V) := backend_svd A true in
    mshape U = (nrows A, nrows A) /\
    length Sv = Nat.min (nrows A) (ncols A) /\
    mshape V = (ncols A, ncols A);
  svd_thin_shape : forall A,
    let '(U, Sv, V) := backend_svd A false in
    mshape U = (nrows A, Nat.min (nrows A) (ncols A)) /\
    length Sv = Nat.min (nrows A) (ncols A) /\
    mshape V = (Nat.min (nrows A) (ncols A), ncols A);
  svd_values : forall A full,
    let '(U, Sv, V) := backend_svd A full in
    sorted_descending Sv /\ all_nonneg Sv;
  eigh_shape : forall A, nrows A = ncols A ->
    let '(w, Q) := backend_eigh A in
    length w = nrows A /\ mshape Q = (nrows A, nrows A);
  eigh_values : forall A, sorted_ascending (fst (backend_eigh A));
  eigsh_shape : forall A k v0, nrows A = ncols A ->
    let '(w, Q) := backend_eigsh A k v0 in
    length w = k /\ mshape Q = (nrows A, k);
  eigsh_values : forall A k v0, sorted_ascending (fst (backend_eigsh A k v0));
  qr_shape : forall A,
    let '(Q, R) := backend_qr A in
    mshape Q = (nrows A, Nat.min (nrows A) (ncols A)) /\
    mshape R = (Nat.min (nrows A) (ncols A), ncols A);
  normal_shape : forall rs r c, mshape (backend_normal rs r c) = (r, c);
  uniform_length : forall rs lo hi n, length (backend_uniform rs lo hi n) = n
}.

(** *** Calls of the primitives, as the module makes them *)

Definition tl_svd `{Backend} (A : mat) (full_matrices : bool)
  : M (mat * vector * mat) :=
  call P_svd ;;; ret (backend_svd A full_matrices).

Definition tl_eigh `{Backend} (A : mat) : M (vector * mat) :=
  call P_eigh ;;; ret (backend_eigh A).

(** The sparse eigensolver refuses [k <= 0]. *)
Definition eigsh `{Backend} (A : mat) (k : Z) (v0 : vector)
  : M (vector * mat) :=
  if (k <=? 0)%Z then raise (ValueError "k must be greater than 0.")
  else call P_eigsh ;;; ret (backend_eigsh A (Z.to_nat k) v0).

Definition tl_qr `{Backend} (A : mat) : M (mat * mat) :=
  call P_qr ;;; ret (backend_qr A).

(** A negative dimension is refused by the generator. *)
Definition rng_normal `{Backend} (rs : random_state) (r : nat) (c : Z)
  : M mat :=
  if (c <? 0)%Z then raise (ValueError "negative dimensions are not allowed")
  else call P_normal ;;; ret (backend_normal rs r (Z.to_nat c)).

Definition rng_uniform `{Backend} (rs : random_state) (lo hi : R) (n : nat)
  : M vector :=
  call P_uniform ;;; ret (backend_uniform rs lo hi n).

(** [tl.dot(A, B)], [np.dot(A, B)]: the inner dimensions must agree. *)
Definition tl_dot (A B : mat) : M mat :=
  if (ncols A =? nrows B)%nat then call P_dot ;;; ret (dot A B)
  else raise (ValueError "shapes not aligned").

(** [A op v[None, :]] under numpy's broadcasting of a (r, c) array with
    a (1, n) array: the column counts agree or one of them is 1. *)
Definition broadcast_cols (op : R -> R -> R) (A : mat) (v : vector)
  : M mat :=
  let c := ncols A in
  let n := length v in
  if ((c =? n) || (c =? 1) || (n =? 1))%nat then
    ret (tabulate2 (nrows A) (Nat.max c n)
           (fun i j => op (get A i (if (c =? 1)%nat then 0%nat else j))
                          (nth (if (n =? 1)%nat then 0%nat else j) v 0)))
  else raise (ValueError "operands could not be broadcast together").

(* ------------------------------------------------------------------ *)
(** ** [make_svd_non_negative] *)

(** Python's [repr] of a [str], as [%r] and the rendering of a list or
    tuple of names use it: a builtin of the language, not of the module. *)
Class Builtins : Type := { repr : string -> string }.

Definition join (sep : string) (l : list string) : string :=
  match l with
  | [] => EmptyString
  | x :: l' => fold_left (fun acc y => (acc ++ sep ++ y)%string) l' x
  end.

(** [%r] of a tuple of two or more names, and [str] of a list of names. *)
Definition repr_tuple `{Builtins} (l : list string) : string :=
  ("(" ++ join ", " (map repr l) ++ ")")%string.
Definition str_list `{Builtins} (l : list string) : string :=
  ("[" ++ join ", " (map repr l) ++ "]")%string.

(** [v[i]], [M[:, j]] and [M[i, :]] with their bounds checks. *)
Definition vindex (v : vector) (i : nat) : result R :=
  match nth_error v i with
  | Some x => Ok x
  | None => Err (IndexError "index is out of bounds")
  end.
Definition column_at (M : mat) (j : nat) : result vector :=
  if (j <? ncols M)%nat then Ok (col M j)
  else Err (IndexError "index is out of bounds").
Definition row_at (M : mat) (i : nat) : result vector :=
  if (i <? nrows M)%nat then Ok (row M i)
  else Err (IndexError "index is out of bounds").

(** [for j in l: state = body(j, state)], stopping at the first error. *)
Fixpoint for_each {St : Type} (l : list nat) (body : nat -> St -> result St)
    (st : St) : result St :=
  match l with
  | [] => Ok st
  | j :: l' => rbind (body j st) (for_each l' body)
  end.

Definition vscale (a : R) (v : vector) : vector := map (fun x => a * x) v.
Definition vdiv (v : vector) (a : R) : vector := map (fun x => x / a) v.

(** The body of the loop over the components [j >= 1]. *)
Definition nndsvd_step (U : mat) (Sv : vector) (V : mat) (j : nat)
    (WH : mat * mat) : result (mat * mat) :=
  let '(W, H) := WH in
  rbind (column_at U j) (fun x =>
  rbind (row_at V j) (fun y =>
  (* extract positive and negative parts of column vectors *)
  let x_p := map (clip_min 0) x in
  let y_p := map (clip_min 0) y in
  let x_n := map Rabs (map (clip_max 0) x) in
  let y_n := map Rabs (map (clip_max 0) y) in
  (* and their norms *)
  let x_p_nrm := norm x_p in
  let y_p_nrm := norm y_p in
  let x_n_nrm := norm x_n in
  let y_n_nrm := norm y_n in
  let m_p := x_p_nrm * y_p_nrm in
  let m_n := x_n_nrm * y_n_nrm in
  (* choose update *)
  let '(u, v, sigma) :=
    if Rltb m_n m_p
    then (vdiv x_p x_p_nrm, vdiv y_p y_p_nrm, m_p)
    else (vdiv x_n x_n_nrm, vdiv y_n y_n_nrm, m_n) in
  rbind (vindex Sv j) (fun S_j =>
  let lbd := sqrt (S_j * sigma) in
  let W := update_col W j (vscale lbd u) in
  let H := update_row H j (vscale lbd v) in
  Ok (W, H)))).

Definition nntype_message `{Builtins} (nntype : string) : string :=
  ("Invalid nntype parameter: got " ++ repr nntype ++ " instead of one of "
   ++ repr_tuple ["nndsvd"; "nndsvda"])%string.

Definition make_svd_non_negative `{Builtins} (tensor : tensor)
    (U : mat) (Sv : vector) (V : mat) (nntype : string)
  : result mat :=
  (* NNDSVD initialization *)
  let W := zeros_like U in
  let H := zeros_like V in
  (* The leading singular triplet is non-negative
     so it can be used as is for initialization. *)
  rbind (vindex Sv 0) (fun S_0 =>
  rbind (column_at U 0) (fun U_0 =>
  let W := update_col W 0 (vscale (sqrt S_0) (map Rabs U_0)) in
  rbind (row_at V 0) (fun V_0 =>
  let H := update_row H 0 (vscale (sqrt S_0) (map Rabs V_0)) in
  rbind (for_each (seq 1 (ncols U - 1)) (nndsvd_step U Sv V) (W, H))
    (fun WH =>
  let '(W, H) := WH in
  (* After this point we no longer need H *)
  let eps := eps (tdtype tensor) in
  if (nntype =? "nndsvd")%string then
    Ok (soft_thresholding W eps)
  else if (nntype =? "nndsvda")%string then
    let avg := mean tensor in
    Ok (where_lt W eps avg)
  else
    Err (ValueError (nntype_message nntype)))))).

(* ------------------------------------------------------------------ *)
(** ** [randomized_range_finder] *)

(** The power iterations: [n_iter] rounds of two re-orthonormalisations. *)
Fixpoint power_iterations `{Backend} (n_iter : nat) (A A_H Q : mat)
  : M mat :=
  match n_iter with
  | O => ret Q
  | S n =>
      P <- tl_dot A_H Q ;;
      '(Q, _) <- tl_qr P ;;
      P <- tl_dot A Q ;;
      '(Q, _) <- tl_qr P ;;
      power_iterations n A A_H Q
  end.

Definition randomized_range_finder `{Backend} (A : mat) (n_dims : Z)
    (n_iter : nat) (rs : random_state) : M mat :=
  let '(dim_1, dim_2) := mshape A in
  Q <- rng_normal rs dim_2 n_dims ;;
  P <- tl_dot A Q ;;
  '(Q, _) <- tl_qr P ;;
  (* Perform power iterations when spectrum decays slowly *)
  let A_H := conj (transpose A) in
  power_iterations n_iter A A_H Q.

(* ------------------------------------------------------------------ *)
(** ** [partial_svd] *)

Definition vmap (f : R -> R) (v : vector) : vector := map f v.

(** [np.where(np.abs(S) <= eps, 0, 1 / S)]. *)
Definition guarded_inverse (e : R) (Sv : vector) : vector :=
  vmap (fun x => if Rleb (Rabs x) e then 0 else 1 / x) Sv.

(** [2 * (np.diag(R) >= 0) - 1]. *)
Definition diag_signs (Rm : mat) : vector :=
  vmap (fun d => 2 * (if Rleb 0 d then 1 else 0) - 1) (diag Rm).

Definition partial_svd `{Backend} (matrix : tensor) (n_eigenvecs : option Z)
    (rs : random_state) : M (mat * vector * mat) :=
  (* Check that matrix is... a matrix! *)
  if negb (ndim matrix =? 2)%nat
  then raise (ValueError (ndim_message (ndim matrix))) else
  let is_numpy := is_ndarray matrix in
  (if negb is_numpy then warn numpy_warning else ret tt) ;;;
  (* Choose what to do depending on the params *)
  let '(dim_1, dim_2) := shape2 matrix in
  let min_dim := Nat.min dim_1 dim_2 in
  let A := as_matrix matrix in
  if match n_eigenvecs with
     | None => true
     | Some n => (Z.of_nat min_dim <=? n)%Z
     end
  then
    (* Just perform trucated SVD *)
    let full_matrices :=
      match n_eigenvecs with
      | None => true
      | Some n => (Z.of_nat min_dim <? n)%Z
      end in
    '(U, Sv, V) <- tl_svd A full_matrices ;;
    ret (slice_cols n_eigenvecs U, vslice n_eigenvecs Sv,
         slice_rows n_eigenvecs V)
  else
    (* here [n_eigenvecs] is an integer below [min_dim] *)
    let k := match n_eigenvecs with Some n => n | None => 0%Z end in
    (* We can perform a partial SVD *)
    (* initilize with [-1, 1] as in ARPACK *)
    v0 <- rng_uniform rs (-1) 1 min_dim ;;
    (* [np.finfo(S.dtype).eps]: the eigenvalues have the dtype of the input *)
    let e := eps (tdtype matrix) in
    '(U, Sv, V) <-
      (* First choose whether to use X * X.T or X.T *X *)
      (if (dim_1 <? dim_2)%nat then
         G <- tl_dot A (conj (transpose A)) ;;
         '(Sv, U) <- eigsh G k v0 ;;
         let Sv := vmap sqrt (vmap (clip_min 0) Sv) in
         (* To avoid divide by zero warning on next line *)
         let Sv := vmap (clip_min e) Sv in
         UI <- broadcast_cols Rmult U (guarded_inverse e Sv) ;;
         V <- tl_dot (conj (transpose A)) UI ;;
         let '(U, Sv, V) := (flip_cols U, rev Sv, flip_cols V) in
         '(V, Rm) <- tl_qr V ;;
         (* we can't use np.sign because np.sign(0) == 0 *)
         V <- broadcast_cols Rmult V (diag_signs Rm) ;;
         ret (U, Sv, V)
       else
         G <- tl_dot (conj (transpose A)) A ;;
         '(Sv, V) <- eigsh G k v0 ;;
         let Sv := vmap sqrt (vmap (clip_min 0) Sv) in
         let Sv := vmap (clip_min e) Sv in
         AV <- tl_dot A V ;;
         U <- broadcast_cols Rmult AV (guarded_inverse e Sv) ;;
         let '(U, Sv, V) := (flip_cols U, rev Sv, flip_cols V) in
         '(U, Rm) <- tl_qr U ;;
         U <- broadcast_cols Rmult U (diag_signs Rm) ;;
         ret (U, Sv, V)) ;;
    (* WARNING: here, V is still the transpose of what it should be *)
    let V := conj (transpose V) in
    ret (U, Sv, V).

(* ------------------------------------------------------------------ *)
(** ** [truncated_svd] *)

(** The shared prologue of [truncated_svd], [symeig_svd] and
    [randomized_svd]: the default rank, then the clamp with its warning. *)
Definition clamp_rank (n_eigenvecs : option Z) (max_dim : nat) : M Z :=
  let n_eigenvecs :=
    match n_eigenvecs with
    | None => Z.of_nat max_dim
    | Some n => n
    end in
  if (Z.of_nat max_dim <? n_eigenvecs)%Z then
    warn (rank_warning n_eigenvecs max_dim) ;;;
    ret (Z.of_nat max_dim)
  else ret n_eigenvecs.

Definition truncated_svd `{Backend} (matrix : tensor) (n_eigenvecs : option Z)
  : M (mat * vector * mat) :=
  (* Check that matrix is... a matrix! *)
  if negb (ndim matrix =? 2)%nat
  then raise (ValueError (ndim_message (ndim matrix))) else
  let '(dim_1, dim_2) := shape2 matrix in
  let min_dim := Nat.min dim_1 dim_2 in
  let max_dim := Nat.max dim_1 dim_2 in
  n_eigenvecs <- clamp_rank n_eigenvecs max_dim ;;
  let full_matrices := (Z.of_nat min_dim <? n_eigenvecs)%Z in
  '(U, Sv, V) <- tl_svd (as_matrix matrix) full_matrices ;;
  ret (slice_cols (Some n_eigenvecs) U, vslice (Some n_eigenvecs) Sv,
       slice_rows (Some n_eigenvecs) V).

(* ------------------------------------------------------------------ *)
(** ** [symeig_svd] *)

Definition symeig_svd `{Backend} (matrix : tensor) (n_eigenvecs : option Z)
  : M (mat * vector * mat) :=
  (* Check that matrix is... a matrix! *)
  if negb (ndim matrix =? 2)%nat
  then raise (ValueError (ndim_message (ndim matrix))) else
  let '(dim_1, dim_2) := shape2 matrix in
  let max_dim := Nat.max dim_1 dim_2 in
  n_eigenvecs <- clamp_rank n_eigenvecs max_dim ;;
  let A := as_matrix matrix in
  (* [tl.eps(S.dtype)]: the eigenvalues have the dtype of the input *)
  let e := eps (tdtype matrix) in
  '(U, Sv, V) <-
    (if (dim_2 <? dim_1)%nat then
       G <- tl_dot A (transpose A) ;;
       '(Sv, U) <- tl_eigh G ;;
       let Sv := vmap sqrt (vmap (clip_min e) Sv) in
       US <- broadcast_cols Rdiv U Sv ;;
       V <- tl_dot (transpose A) US ;;
       ret (U, Sv, V)
     else
       G <- tl_dot (transpose A) A ;;
       '(Sv, V) <- tl_eigh G ;;
       let Sv := vmap sqrt (vmap (clip_min e) Sv) in
       AV <- tl_dot A V ;;
       U <- broadcast_cols Rdiv AV Sv ;;
       ret (U, Sv, V)) ;;
  let '(U, Sv, V) := (flip_cols U, rev Sv, flip_rows (transpose V)) in
  ret (slice_cols (Some (Z.min (Z.of_nat dim_1) n_eigenvecs)) U,
       vslice (Some (Z.min (Z.min (Z.of_nat dim_1) (Z.of_nat dim_2))
                       n_eigenvecs)) Sv,
       slice_rows (Some (Z.min (Z.of_nat dim_2) n_eigenvecs)) V).

(* ------------------------------------------------------------------ *)
(** ** [randomized_svd] *)

Definition randomized_svd `{Backend} (matrix : tensor) (n_eigenvecs : option Z)
    (n_oversamples : Z) (n_iter : nat) (rs : random_state)
  : M (mat * vector * mat) :=
  (* Check that matrix is... a matrix! *)
  if negb (ndim matrix =? 2)%nat
  then raise (ValueError (ndim_message (ndim matrix))) else
  let '(dim_1, dim_2) := shape2 matrix in
  let min_dim := Nat.min dim_1 dim_2 in
  let max_dim := Nat.max dim_1 dim_2 in
  n_eigenvecs <- clamp_rank n_eigenvecs max_dim ;;
  let n_dims := Z.min (n_eigenvecs + n_oversamples) (Z.of_nat max_dim) in
  let A := as_matrix matrix in
  let reduced := of_matrix (tdtype matrix) (is_ndarray matrix) in
  if ((dim_2 <? dim_1)%nat
      && (Z.min (Z.of_nat min_dim) n_dims <? n_eigenvecs)%Z)
     || ((dim_1 <? dim_2)%nat
         && (n_eigenvecs <? Z.min (Z.of_nat min_dim) n_dims)%Z)
  then
    (* transpose matrix to keep the reduced matrix shape minimal *)
    let matrix_T := transpose A in
    Q <- randomized_range_finder matrix_T n_dims n_iter rs ;;
    let Q_H := conj (transpose Q) in
    P <- tl_dot Q_H matrix_T ;;
    let matrix_reduced := transpose P in
    '(U, Sv, V) <- truncated_svd (reduced matrix_reduced) (Some n_eigenvecs) ;;
    V <- tl_dot V (transpose Q) ;;
    ret (U, Sv, V)
  else
    Q <- randomized_range_finder A n_dims n_iter rs ;;
    let Q_H := conj (transpose Q) in
    matrix_reduced <- tl_dot Q_H A ;;
    '(U, Sv, V) <- truncated_svd (reduced matrix_reduced) (Some n_eigenvecs) ;;
    U <- tl_dot Q U ;;
    ret (U, Sv, V).

(* ------------------------------------------------------------------ *)
(** ** [svd_funs] *)

Definition SVD_FUNS : list string :=
  ["partial_svd"; "truncated_svd"; "symeig_svd"; "randomized_svd"]%string.

Definition svd_type_message `{Builtins} (svd_type : string) : string :=
  ("Got svd=" ++ svd_type ++ ". However, the possible choices are "
   ++ str_list SVD_FUNS)%string.

(** The keyword arguments that the strategies pick from [**kwargs]. *)
Record kwargs : Type := mkKwargs {
  kw_n_oversamples : Z;
  kw_n_iter : nat;
  kw_random_state : random_state
}.

Definition default_kwargs : kwargs := mkKwargs 5 2 None.

Definition svd_funs `{Backend} `{Builtins} (tensor : tensor)
    (svd_type : string) (n_eigenvecs : option Z) (flip_svd : bool)
    (non_negative : bool) (nntype : string) (u_based_decision : bool)
    (kw : kwargs) : M (mat * vector * mat) :=
  '(U, Sv, V) <-
    (if (svd_type =? "partial_svd")%string then
       partial_svd tensor n_eigenvecs (kw_random_state kw)
     else if (svd_type =? "truncated_svd")%string then
       truncated_svd tensor n_eigenvecs
     else if (svd_type =? "symeig_svd")%string then
       symeig_svd tensor n_eigenvecs
     else if (svd_type =? "randomized_svd")%string then
       randomized_svd tensor n_eigenvecs (kw_n_oversamples kw)
         (kw_n_iter kw) (kw_random_state kw)
     else
       raise (ValueError (svd_type_message svd_type))) ;;
  '(U, V) <-
    (if flip_svd then lift (svd_flip U V u_based_decision) else ret (U, V)) ;;
  U <-
    (if non_negative
     then lift (make_svd_non_negative tensor U Sv V nntype)
     else ret U) ;;
  ret (U, Sv, V).

(* ------------------------------------------------------------------ *)
(** ** Vocabulary of the statements *)

(** The run [m] raises nothing, emits exactly the warnings [W], in this
    order, and returns a value that satisfies [P]. *)
Definition runs {A : Type} (m : M A) (W : list string) (P : A -> Prop) : Prop :=
  exists a, outcome m = Ok a /\ warnings_of (trace m) = W /\ P a.

(** A rank-[k] triplet of a [rows] x [cols] matrix: U is rows x k, S has
    k entries, non-negative and non-increasing, V is k x cols. *)
Definition rank_k_triplet (rows cols k : nat) (r : mat * vector * mat) : Prop :=
  let '(U, Sv, V) := r in
  mshape U = (rows, k) /\
  length Sv = k /\ sorted_descending Sv /\ all_nonneg Sv /\
  mshape V = (k, cols).

(** The warnings of a run of [partial_svd]: the conversion notice when
    the input is not a NumPy array, nothing else. *)
Definition conversion_notice (t : tensor) : list string :=
  if is_ndarray t then [] else [numpy_warning].

(** The Gram matrix that [symeig_svd] hands to the eigensolver, and the
    singular values it derives from the eigenvalues, before truncation. *)
Definition gram_matrix (t : tensor) : mat :=
  let '(dim_1, dim_2) := shape2 t in
  let A := as_matrix t in
  if (dim_2 <? dim_1)%nat then dot A (transpose A) else dot (transpose A) A.

Definition symeig_values `{Backend} (t : tensor) : vector :=
  rev (vmap sqrt (vmap (clip_min (eps (tdtype t)))
                    (fst (backend_eigh (gram_matrix t))))).

(* ------------------------------------------------------------------ *)
(** ** A concrete backend and concrete inputs *)

(** The [r] x [c] matrix with ones on its diagonal. *)
Definition eye (r c : nat) : mat :=
  tabulate2 r c (fun i j => if (i =? j)%nat then 1 else 0).

(** A backend that is exact on zero matrices: of the zero matrix of a
    given shape it returns a genuine SVD, eigendecomposition and QR
    factorisation (orthonormal factors, zero values), and its generators
    draw zeros. *)
#[export] Instance zero_exact_backend : Backend := {|
  backend_svd A full_matrices :=
    let K := Nat.min (nrows A) (ncols A) in
    if full_matrices
    then (eye (nrows A) (nrows A), repeat 0 K, eye (ncols A) (ncols A))
    else (eye (nrows A) K, repeat 0 K, eye K (ncols A));
  backend_eigh A := (repeat 0 (nrows A), eye (nrows A) (nrows A));
  backend_eigsh A k v0 := (repeat 0 k, eye (nrows A) k);
  backend_qr A :=
    let K := Nat.min (nrows A) (ncols A) in
    (eye (nrows A) K, tabulate2 K (ncols A) (fun _ _ => 0));
  backend_normal rs r c := tabulate2 r c (fun _ _ => 0);
  backend_uniform rs lo hi n := repeat 0 n
|}.

(** Python's [repr] on names that hold no quote, backslash or control
    character: the name between single quotes. *)
#[export] Instance plain_repr : Builtins := {|
  repr s := ("'" ++ s ++ "'")%string
|}.

(** The [r] x [c] zero matrix as a NumPy array of doubles. *)
Definition zeros_tensor (r c : nat) : tensor :=
  mkTensor [r; c] (repeat 0 (r * c)) float64 true.

(** A 3-dimensional array. *)
Definition cube_tensor : tensor :=
  mkTensor [2; 2; 2]%nat (repeat 1 8) float64 true.

(** The singular values of [symeig_svd] as the specification words
    them: the eigenvalues clipped at zero before the square root. *)
Definition symeig_values_clipped_at_zero `{Backend} (t : tensor) : vector :=
  rev (vmap sqrt (vmap (clip_min 0) (fst (backend_eigh (gram_matrix t))))).

(** *** Quantities and inputs of the statements about [svd_flip] and
    [make_svd_non_negative] *)

(** The number of components of the matrix that decides the signs, and
    the condition that none of its deciding columns (rows) is entirely
    zero. *)
Definition deciding_count (U V : mat) (u_based_decision : bool) : nat :=
  if u_based_decision then ncols U else nrows V.

Definition deciding_nonzero (U V : mat) (u_based_decision : bool) : Prop :=
  if u_based_decision
  then forall j, (j < ncols U)%nat ->
         exists i, (i < nrows U)%nat /\ get U i j <> 0
  else forall i, (i < nrows V)%nat ->
         exists j, (j < ncols V)%nat /\ get V i j <> 0.

Definition U1 : mat := mkMatrix 2 2 [[1; -2]; [-3; 1]].
Definition V1 : mat := mkMatrix 3 2 [[1; 2]; [3; 4]; [5; 6]].
Definition U1_flipped : mat := mkMatrix 2 2 [[-1; 2]; [3; -1]].
Definition V1_flipped : mat := mkMatrix 3 2 [[-1; -2]; [-3; -4]; [5; 6]].

(** The products m_p and m_n of component [j] in the NNDSVD loop. *)
Definition pos_energy (U V : mat) (j : nat) : R :=
  norm (map (clip_min 0) (col U j)) * norm (map (clip_min 0) (row V j)).
Definition neg_energy (U V : mat) (j : nat) : R :=
  norm (map Rabs (map (clip_max 0) (col U j)))
  * norm (map Rabs (map (clip_max 0) (row V j))).

(** Every normalisation of the loop divides by a non-zero norm: the
    larger of the two products is positive for each component j >= 1. *)
Definition normalisations_defined (U V : mat) : Prop :=
  forall j, (1 <= j < ncols U)%nat ->
    0 < Rmax (pos_energy U V j) (neg_energy U V j).

(** The triplet has at least one component, and S and V reach as far as
    the columns of U. *)
Definition indexable_triplet (U : mat) (Sv : vector) (V : mat) : Prop :=
  (1 <= ncols U)%nat /\ (ncols U <= length Sv)%nat /\ (ncols U <= nrows V)%nat.

(** The matrix [[-1, 0], [0, 0]] with an SVD of it. *)
Definition T6 : tensor := mkTensor [2; 2]%nat [-1; 0; 0; 0] float64 true.
Definition U6 : mat := mkMatrix 2 2 [[1; 0]; [0; 1]].
Definition S6 : vector := [1; 0].
Definition V6 : mat := mkMatrix 2 2 [[-1; 0]; [0; 1]].
Definition W6 : mat := mkMatrix 2 2 [[1; -1 / 4]; [-1 / 4; -1 / 4]].

(** The matrix [[2, 0], [0, 1]] with an SVD of it. *)
Definition T7 : tensor := mkTensor [2; 2]%nat [2; 0; 0; 1] float64 true.
Definition U7 : mat := mkMatrix 2 2 [[1; 0]; [0; 1]].
Definition S7 : vector := [2; 1].
Definition V7 : mat := mkMatrix 2 2 [[1; 0]; [0; 1]].


(* ------------------------------------------------------------------ *)
(** ** Further vocabulary and inputs *)

(** The axis along which [svd_flip] takes its argmax has length 0. *)
Definition deciding_axis_empty (U V : mat) (u_based_decision : bool) : bool :=
  if u_based_decision then (nrows U =? 0)%nat else (ncols V =? 0)%nat.

(** U * diag(S) * V, the matrix a triplet stands for. *)
Definition reconstruct (U : mat) (Sv : vector) (V : mat) : mat :=
  dot (mul_cols U Sv) V.

Definition V1_square : mat := mkMatrix 2 2 [[1; 2]; [3; 4]].
Definition V1_square_flipped : mat := mkMatrix 2 2 [[-1; -2]; [-3; -4]].

(** The triplet that a dense SVD of a [rows] x [cols] matrix leaves
    after its three slices at [k >= 0]: each slice stops at [k] or at
    the end of the axis, whichever comes first. *)
Definition sliced_triplet (rows cols : nat) (k : Z) (r : mat * vector * mat)
  : Prop :=
  let '(U, Sv, V) := r in
  mshape U = (rows, Nat.min (Z.to_nat k) rows) /\
  length Sv = Nat.min (Z.to_nat k) (Nat.min rows cols) /\
  sorted_descending Sv /\ all_nonneg Sv /\
  mshape V = (Nat.min (Z.to_nat k) cols, cols).

(** The rank that [truncated_svd] works with when none is given. *)
Definition requested_rank (n_eigenvecs : option Z) (max_dim : nat) : Z :=
  match n_eigenvecs with
  | None => Z.of_nat max_dim
  | Some n => n
  end.

(** The strategy call that opens [svd_funs], and what [svd_funs] does
    with the triplet (U, S, V) that the strategy returned. *)
Definition run_strategy `{Backend} `{Builtins} (tensor : tensor)
    (svd_type : string) (n_eigenvecs : option Z) (kw : kwargs)
  : M (mat * vector * mat) :=
  if (svd_type =? "partial_svd")%string then
    partial_svd tensor n_eigenvecs (kw_random_state kw)
  else if (svd_type =? "truncated_svd")%string then
    truncated_svd tensor n_eigenvecs
  else if (svd_type =? "symeig_svd")%string then
    symeig_svd tensor n_eigenvecs
  else if (svd_type =? "randomized_svd")%string then
    randomized_svd tensor n_eigenvecs (kw_n_oversamples kw)
      (kw_n_iter kw) (kw_random_state kw)
  else
    raise (ValueError (svd_type_message svd_type)).

Definition post_process `{Builtins} (tensor : tensor) (flip_svd : bool)
    (non_negative : bool) (nntype : string) (u_based_decision : bool)
    (r : mat * vector * mat) : result (mat * vector * mat) :=
  let '(U, Sv, V) := r in
  rbind (if flip_svd then svd_flip U V u_based_decision else Ok (U, V))
    (fun '(U, V) =>
  rbind (if non_negative
         then make_svd_non_negative tensor U Sv V nntype
         else Ok U)
    (fun U => Ok (U, Sv, V))).

(** The 2 x 2 identity matrix with its SVD (I, [1, 1], I), and the W
    that 'nndsvda' makes of it. *)
Definition T8 : tensor := mkTensor [2; 2]%nat [1; 0; 0; 1] float64 true.
Definition S8 : vector := [1; 1].
Definition W8 : mat := mkMatrix 2 2 [[1; 1 / 2]; [1 / 2; 1]].

(* ================================================================== *)
(** * Verification *)

(* ------------------------------------------------------------------ *)
(** ** Scalars *)

Lemma Rltb_true (x y : R) : Rltb x y = true <-> x < y.
Proof. unfold Rltb; destruct (Rlt_dec x y); split; intros; congruence || auto. Qed.

Lemma Rltb_false (x y : R) : Rltb x y = false <-> y <= x.
Proof.
  unfold Rltb; destruct (Rlt_dec x y); split; intros; try congruence; lra.
Qed.

Ltac case_Rltb :=
  repeat match goal with
  | |- context [Rltb ?a ?b] =>
      let H := fresh "Hlt" in
      destruct (Rltb a b) eqn:H;
      [apply Rltb_true in H | apply Rltb_false in H]
  end.

Lemma sign_cases (x : R) :
  (0 < x /\ sign x = 1) \/ (x < 0 /\ sign x = -1) \/ (x = 0 /\ sign x = 0).
Proof. unfold sign; case_Rltb; [left | right; left | right; right]; split; lra. Qed.

Lemma sign_of_flipped (x : R) : sign x * sign (x * sign x) = sign x.
Proof.
  destruct (sign_cases x) as [[H E] | [[H E] | [H E]]]; rewrite E.
  - destruct (sign_cases (x * 1)) as [[H' E'] | [[H' E'] | [H' E']]]; rewrite E'; lra.
  - destruct (sign_cases (x * -1)) as [[H' E'] | [[H' E'] | [H' E']]]; rewrite E'; lra.
  - lra.
Qed.

Lemma Rabs_mul_sign (x y : R) : sign y <> 0 -> Rabs (x * sign y) = Rabs x.
Proof.
  intros Hs. rewrite Rabs_mult.
  destruct (sign_cases y) as [[H E] | [[H E] | [H E]]]; rewrite E in *.
  - rewrite Rabs_R1; lra.
  - replace (Rabs (-1)) with 1; [lra |].
    unfold Rabs; destruct (Rcase_abs (-1)); lra.
  - lra.
Qed.

(* ------------------------------------------------------------------ *)
(** ** Lists and matrices *)

Lemma nth_map_seq {A : Type} (f : nat -> A) (n i : nat) (d : A) :
  (i < n)%nat -> nth i (map f (seq 0 n)) d = f i.
Proof.
  intros Hi. rewrite (nth_indep _ d (f 0%nat)) by (rewrite length_map, length_seq; lia).
  rewrite map_nth, seq_nth; auto.
Qed.

Lemma get_tabulate2 (r c : nat) (f : nat -> nat -> R) (i j : nat) :
  (i < r)%nat -> (j < c)%nat -> get (tabulate2 r c f) i j = f i j.
Proof.
  intros Hi Hj. unfold get, tabulate2; simpl.
  rewrite nth_map_seq by auto. rewrite nth_map_seq by auto. reflexivity.
Qed.

Lemma tabulate2_ext (r c : nat) (f g : nat -> nat -> R) :
  (forall i j, (i < r)%nat -> (j < c)%nat -> f i j = g i j) ->
  tabulate2 r c f = tabulate2 r c g.
Proof.
  intros H. unfold tabulate2. f_equal.
  apply map_ext_in. intros i Hi. apply in_seq in Hi.
  apply map_ext_in. intros j Hj. apply in_seq in Hj.
  apply H; lia.
Qed.

Lemma abs_col (M : mat) (j : nat) :
  (j < ncols M)%nat ->
  col (mabs M) j = map (fun i => Rabs (get M i j)) (seq 0 (nrows M)).
Proof.
  intros Hj. unfold col, mabs, mmap; simpl.
  apply map_ext_in. intros i Hi. apply in_seq in Hi.
  rewrite get_tabulate2; auto; lia.
Qed.

Lemma abs_row (M : mat) (i : nat) :
  (i < nrows M)%nat ->
  row (mabs M) i = map (fun j => Rabs (get M i j)) (seq 0 (ncols M)).
Proof.
  intros Hi. unfold row, mabs, mmap; simpl.
  apply map_ext_in. intros j Hj. apply in_seq in Hj.
  rewrite get_tabulate2; auto; lia.
Qed.

(* ------------------------------------------------------------------ *)
(** ** [argmax] *)

Lemma argmax_ok (l : list R) : l <> [] -> argmax l = Ok (argmax_idx l).
Proof. destruct l; simpl; congruence. Qed.

(** The answer of [argmax_from] is either the running best, which then
    dominates the rest, or a position of the rest holding a dominating
    value. *)
Lemma argmax_from_spec (l : list R) :
  forall best bestv i, (best < i)%nat ->
  let a := argmax_from best bestv i l in
  (a = best /\ forall x, In x l -> x <= bestv) \/
  ((i <= a < i + length l)%nat /\ bestv < nth (a - i) l 0 /\
   forall x, In x l -> x <= nth (a - i) l 0).
Proof.
  induction l as [| x l IH]; intros best bestv i Hb; simpl.
  - left; split; auto. intros ? [].
  - destruct (Rltb bestv x) eqn:E.
    + apply Rltb_true in E.
      destruct (IH i x (S i) (Nat.lt_succ_diag_r i)) as [[Ha Hd] | [Hr [Hv Hd]]].
      * right. rewrite Ha. replace (i - i)%nat with 0%nat by lia.
        repeat split; try lia; auto.
        intros y [<- | Hy]; [lra | auto].
      * right.
        set (a := argmax_from i x (S i) l) in *.
        replace (a - i)%nat with (S (a - S i)) by lia.
        repeat split; try lia; try lra.
        intros y [<- | Hy]; [lra | auto].
    + apply Rltb_false in E.
      destruct (IH best bestv (S i) (Nat.lt_lt_succ_r _ _ Hb)) as [[Ha Hd] | [Hr [Hv Hd]]].
      * left. split; auto. intros y [<- | Hy]; auto.
      * right.
        set (a := argmax_from best bestv (S i) l) in *.
        replace (a - i)%nat with (S (a - S i)) by lia.
        repeat split; try lia; try lra.
        intros y [<- | Hy]; [lra | auto].
Qed.

Lemma argmax_idx_lt (l : list R) : l <> [] -> (argmax_idx l < length l)%nat.
Proof.
  destruct l as [| x l]; [congruence | intros _; simpl].
  destruct (argmax_from_spec l 0 x 1 Nat.lt_0_1) as [[Ha _] | [Hr _]]; lia.
Qed.

Lemma argmax_idx_max (l : list R) (x : R) :
  In x l -> x <= nth (argmax_idx l) l 0.
Proof.
  destruct l as [| y l]; [intros [] |]. intros Hin. simpl argmax_idx.
  destruct (argmax_from_spec l 0 y 1 Nat.lt_0_1) as [[Ha Hd] | [Hr [Hv Hd]]].
  - rewrite Ha. simpl. destruct Hin as [<- | Hin]; [lra | auto].
  - set (a := argmax_from 0 y 1 l) in *.
    replace a with (S (a - 1)) at 1 by lia. simpl.
    destruct Hin as [<- | Hin]; [lra | auto].
Qed.

(* ------------------------------------------------------------------ *)
(** ** [svd_flip] in closed form *)

Lemma mapM_ok {A B : Type} (f : A -> result B) (g : A -> B) (l : list A) :
  (forall a, In a l -> f a = Ok (g a)) -> mapM f l = Ok (map g l).
Proof.
  induction l as [| a l IH]; intros H; simpl; auto.
  rewrite (H a) by (left; auto). simpl.
  rewrite IH by (intros; apply H; right; auto). reflexivity.
Qed.

Lemma combine_map_l {A B : Type} (f : A -> B) (l : list A) :
  combine (map f l) l = map (fun a => (f a, a)) l.
Proof. induction l; simpl; congruence. Qed.

Lemma combine_map_r {A B : Type} (f : A -> B) (l : list A) :
  combine l (map f l) = map (fun a => (a, f a)) l.
Proof. induction l; simpl; congruence. Qed.

Lemma col_nonempty (M : mat) (j : nat) : nrows M <> 0%nat -> col M j <> [].
Proof.
  unfold col. destruct (nrows M); [congruence | discriminate].
Qed.

Lemma row_nonempty (M : mat) (i : nat) : ncols M <> 0%nat -> row M i <> [].
Proof.
  unfold row. destruct (ncols M); [congruence | discriminate].
Qed.

Lemma argmax_axis0_ok (M : mat) :
  nrows M <> 0%nat ->
  argmax_axis0 M = Ok (map (fun j => argmax_idx (col M j)) (seq 0 (ncols M))).
Proof.
  intros H. unfold argmax_axis0.
  destruct (Nat.eqb_spec (nrows M) 0); [contradiction |].
  apply mapM_ok. intros j _. apply argmax_ok, col_nonempty, H.
Qed.

Lemma argmax_axis1_ok (M : mat) :
  ncols M <> 0%nat ->
  argmax_axis1 M = Ok (map (fun i => argmax_idx (row M i)) (seq 0 (nrows M))).
Proof.
  intros H. unfold argmax_axis1.
  destruct (Nat.eqb_spec (ncols M) 0); [contradiction |].
  apply mapM_ok. intros j _. apply argmax_ok, row_nonempty, H.
Qed.

(** The sign vector, padded with ones and cut to [m] entries, read at
    an index below [m]. *)
Lemma nth_padded_signs (s : nat -> R) (n m i : nat) :
  (i < m)%nat ->
  nth i (vslice (Some (Z.of_nat m))
           (if (n <? m)%nat
            then map s (seq 0 n) ++ ones (m - n)
            else map s (seq 0 n))) 0
  = pad_sign n s i.
Proof.
  intros Hi. unfold vslice, slice_stop, pad_sign.
  destruct (Z.ltb_spec (Z.of_nat m) 0); [lia |].
  rewrite Nat2Z.id.
  destruct (Nat.ltb_spec n m) as [Hnm | Hnm].
  - rewrite length_app, length_map, length_seq. unfold ones.
    rewrite repeat_length.
    replace (Nat.min m (n + (m - n))) with (length (map s (seq 0 n) ++ repeat 1 (m - n)))
      by (rewrite length_app, length_map, length_seq, repeat_length; lia).
    rewrite firstn_all.
    destruct (Nat.ltb_spec i n) as [Hin | Hin].
    + rewrite app_nth1 by (rewrite length_map, length_seq; lia).
      apply nth_map_seq; auto.
    + rewrite app_nth2 by (rewrite length_map, length_seq; lia).
      rewrite length_map, length_seq.
      rewrite (nth_indep _ 0 1) by (rewrite repeat_length; lia).
      apply nth_repeat.
  - rewrite length_map, length_seq.
    replace (Nat.min m n) with m by lia.
    destruct (Nat.ltb_spec i n) as [Hin | Hin]; [| lia].
    rewrite nth_firstn.
    destruct (Nat.ltb_spec i m); [| lia].
    apply nth_map_seq; auto.
Qed.

Lemma svd_flip_u_based (U V : mat) :
  nrows U <> 0%nat ->
  svd_flip U V true =
  Ok (tabulate2 (nrows U) (ncols U) (fun i j => get U i j * col_sign U j),
      tabulate2 (nrows V) (ncols V)
        (fun i j => get V i j * pad_sign (ncols U) (col_sign U) i)).
Proof.
  intros Hr. unfold svd_flip.
  rewrite argmax_axis0_ok by exact Hr. simpl rbind.
  rewrite combine_map_l, !map_map. simpl ncols.
  f_equal. f_equal.
  - apply tabulate2_ext. intros i j Hi Hj.
    rewrite nth_map_seq by auto. reflexivity.
  - apply tabulate2_ext. intros i j Hi Hj.
    rewrite (nth_padded_signs (col_sign U)) by auto. reflexivity.
Qed.

Lemma svd_flip_v_based (U V : mat) :
  ncols V <> 0%nat ->
  svd_flip U V false =
  Ok (tabulate2 (nrows U) (ncols U)
        (fun i j => get U i j * pad_sign (nrows V) (row_sign V) j),
      tabulate2 (nrows V) (ncols V) (fun i j => get V i j * row_sign V i)).
Proof.
  intros Hc. unfold svd_flip.
  rewrite argmax_axis1_ok by exact Hc. simpl rbind.
  rewrite combine_map_r, !map_map. simpl nrows.
  f_equal. f_equal.
  - apply tabulate2_ext. intros i j Hi Hj.
    rewrite (nth_padded_signs (row_sign V)) by auto. reflexivity.
  - apply tabulate2_ext. intros i j Hi Hj.
    rewrite nth_map_seq by auto. reflexivity.
Qed.

Lemma svd_flip_u_based_err (U V : mat) (r : mat * mat) :
  svd_flip U V true = Ok r -> nrows U <> 0%nat.
Proof.
  unfold svd_flip, argmax_axis0, mabs, mmap; simpl.
  destruct (Nat.eqb_spec (nrows U) 0); [discriminate | auto].
Qed.

Lemma svd_flip_v_based_err (U V : mat) (r : mat * mat) :
  svd_flip U V false = Ok r -> ncols V <> 0%nat.
Proof.
  unfold svd_flip, argmax_axis1, mabs, mmap; simpl.
  destruct (Nat.eqb_spec (ncols V) 0); [discriminate | auto].
Qed.

(* ------------------------------------------------------------------ *)
(** ** Idempotence of the sign flip *)

Lemma col_sign_flipped (U : mat) (j : nat) :
  nrows U <> 0%nat -> (j < ncols U)%nat ->
  let U' := tabulate2 (nrows U) (ncols U) (fun i j => get U i j * col_sign U j) in
  col_sign U j * col_sign U' j = col_sign U j.
Proof.
  intros Hr Hj U'.
  destruct (Req_dec (col_sign U j) 0) as [Hz | Hnz]; [rewrite Hz; lra |].
  assert (Habs : col (mabs U') j = col (mabs U) j).
  { rewrite !abs_col by (simpl; auto). simpl nrows.
    apply map_ext_in. intros i Hi. apply in_seq in Hi.
    unfold U'. rewrite get_tabulate2 by lia.
    apply Rabs_mul_sign. exact Hnz. }
  unfold col_sign at 2. rewrite Habs.
  assert (Ha : (argmax_idx (col (mabs U) j) < nrows U)%nat).
  { pose proof (argmax_idx_lt (col (mabs U) j) (col_nonempty (mabs U) j Hr)) as H.
    unfold col at 2 in H. rewrite length_map, length_seq in H. exact H. }
  unfold U'. rewrite get_tabulate2 by auto.
  unfold col_sign. apply sign_of_flipped.
Qed.

Lemma row_sign_flipped (V : mat) (i : nat) :
  ncols V <> 0%nat -> (i < nrows V)%nat ->
  let V' := tabulate2 (nrows V) (ncols V) (fun i j => get V i j * row_sign V i) in
  row_sign V i * row_sign V' i = row_sign V i.
Proof.
  intros Hc Hi V'.
  destruct (Req_dec (row_sign V i) 0) as [Hz | Hnz]; [rewrite Hz; lra |].
  assert (Habs : row (mabs V') i = row (mabs V) i).
  { rewrite !abs_row by (simpl; auto). simpl ncols.
    apply map_ext_in. intros j Hj. apply in_seq in Hj.
    unfold V'. rewrite get_tabulate2 by lia.
    apply Rabs_mul_sign. exact Hnz. }
  unfold row_sign at 2. rewrite Habs.
  assert (Ha : (argmax_idx (row (mabs V) i) < ncols V)%nat).
  { pose proof (argmax_idx_lt (row (mabs V) i) (row_nonempty (mabs V) i Hc)) as H.
    unfold row at 2 in H. rewrite length_map, length_seq in H. exact H. }
  unfold V'. rewrite get_tabulate2 by auto.
  unfold row_sign. apply sign_of_flipped.
Qed.

Lemma pad_sign_flipped (n : nat) (s s' : nat -> R) (k : nat) :
  (forall j, (j < n)%nat -> s j * s' j = s j) ->
  pad_sign n s k * pad_sign n s' k = pad_sign n s k.
Proof.
  intros H. unfold pad_sign. destruct (Nat.ltb_spec k n); [auto | lra].
Qed.

(** C4. [svd_flip] is idempotent: whenever it returns a pair, applying it
    again with the same [u_based_decision] returns that pair unchanged. *)
Theorem svd_flip_idempotent (U V : mat) (u_based_decision : bool)
    (U' V' : mat) :
  svd_flip U V u_based_decision = Ok (U', V') ->
  svd_flip U' V' u_based_decision = Ok (U', V').
Proof.
  destruct u_based_decision; intros H.
  - pose proof (svd_flip_u_based_err U V _ H) as Hr.
    rewrite svd_flip_u_based in H by exact Hr.
    injection H as HU HV. subst U' V'.
    rewrite svd_flip_u_based by (simpl; exact Hr).
    simpl nrows; simpl ncols.
    f_equal. f_equal.
    + apply tabulate2_ext. intros i j Hi Hj.
      rewrite get_tabulate2 by auto.
      rewrite Rmult_assoc, col_sign_flipped; auto.
    + apply tabulate2_ext. intros i j Hi Hj.
      rewrite get_tabulate2 by auto.
      rewrite Rmult_assoc, pad_sign_flipped; auto.
      intros k Hk. apply col_sign_flipped; auto.
  - pose proof (svd_flip_v_based_err U V _ H) as Hc.
    rewrite svd_flip_v_based in H by exact Hc.
    injection H as HU HV. subst U' V'.
    rewrite svd_flip_v_based by (simpl; exact Hc).
    simpl nrows; simpl ncols.
    f_equal. f_equal.
    + apply tabulate2_ext. intros i j Hi Hj.
      rewrite get_tabulate2 by auto.
      rewrite Rmult_assoc, pad_sign_flipped; auto.
      intros k Hk. apply row_sign_flipped; auto.
    + apply tabulate2_ext. intros i j Hi Hj.
      rewrite get_tabulate2 by auto.
      rewrite Rmult_assoc, row_sign_flipped; auto.
Qed.

(* ------------------------------------------------------------------ *)
(** ** Reasoning about runs *)

Lemma runs_ret {A : Type} (a : A) (P : A -> Prop) : P a -> runs (ret a) [] P.
Proof. intros H. exists a. auto. Qed.

Lemma runs_bind {A B : Type} (m : M A) (k : A -> M B) W1 W2
    (P : A -> Prop) (Q : B -> Prop) :
  runs m W1 P -> (forall a, P a -> runs (k a) W2 Q) ->
  runs (bind m k) (W1 ++ W2) Q.
Proof.
  intros (a & Ha & HW & HP) Hk.
  destruct m as [t r]. simpl in Ha, HW. subst r.
  destruct (Hk a HP) as (b & Hb & HW2 & HQ).
  unfold bind. destruct (k a) as [t' r']. simpl in Hb, HW2. subst r'.
  exists b. simpl. repeat split; auto.
  unfold warnings_of in *. rewrite flat_map_app. congruence.
Qed.

(** The frequent case: the first part of the run is silent. *)
Lemma runs_bind_nil {A B : Type} (m : M A) (k : A -> M B) W
    (P : A -> Prop) (Q : B -> Prop) :
  runs m [] P -> (forall a, P a -> runs (k a) W Q) -> runs (bind m k) W Q.
Proof. intros H1 H2. apply (runs_bind m k [] W P Q H1 H2). Qed.

Lemma runs_weaken {A : Type} (m : M A) W (P Q : A -> Prop) :
  runs m W P -> (forall a, P a -> Q a) -> runs m W Q.
Proof. intros (a & Ha & HW & HP) H. exists a; auto. Qed.

Lemma runs_warn (msg : string) : runs (warn msg) [msg] (fun _ => True).
Proof. exists tt. auto. Qed.

Lemma runs_tl_svd `{B : Backend} A full :
  runs (tl_svd A full) [] (fun r => r = backend_svd A full).
Proof. eexists. simpl. auto. Qed.

Lemma runs_tl_eigh `{B : Backend} A :
  runs (tl_eigh A) [] (fun r => r = backend_eigh A).
Proof. eexists. simpl. auto. Qed.

Lemma runs_tl_qr `{B : Backend} A :
  runs (tl_qr A) [] (fun r => r = backend_qr A).
Proof. eexists. simpl. auto. Qed.

Lemma runs_eigsh `{B : Backend} A k v0 :
  (0 < k)%Z ->
  runs (eigsh A k v0) [] (fun r => r = backend_eigsh A (Z.to_nat k) v0).
Proof.
  intros Hk. unfold eigsh. destruct (Z.leb_spec k 0); [lia |].
  eexists. simpl. auto.
Qed.

Lemma runs_rng_normal `{B : Backend} rs r c :
  (0 <= c)%Z ->
  runs (rng_normal rs r c) [] (fun Q => Q = backend_normal rs r (Z.to_nat c)).
Proof.
  intros Hc. unfold rng_normal. destruct (Z.ltb_spec c 0); [lia |].
  eexists. simpl. auto.
Qed.

Lemma runs_rng_uniform `{B : Backend} rs lo hi n :
  runs (rng_uniform rs lo hi n) [] (fun v => v = backend_uniform rs lo hi n).
Proof. eexists. simpl. auto. Qed.

Lemma runs_tl_dot A B :
  ncols A = nrows B -> runs (tl_dot A B) [] (fun C => C = dot A B).
Proof.
  intros E. unfold tl_dot. rewrite (proj2 (Nat.eqb_eq _ _) E).
  eexists. simpl. auto.
Qed.

Lemma runs_broadcast_cols op A v :
  length v = ncols A ->
  runs (broadcast_cols op A v) [] (fun C => mshape C = mshape A).
Proof.
  intros E. unfold broadcast_cols. rewrite E, Nat.eqb_refl. simpl.
  eexists. simpl. repeat split; auto.
  unfold mshape; simpl. rewrite Nat.max_id. reflexivity.
Qed.

(* ------------------------------------------------------------------ *)
(** ** Shapes *)

Lemma mshape_eq (M : mat) r c :
  mshape M = (r, c) <-> nrows M = r /\ ncols M = c.
Proof. unfold mshape. split; [intros [= -> ->] | intros [-> ->]]; auto. Qed.

Arguments slice_stop : simpl never.

Lemma slice_stop_le stop len : (slice_stop stop len <= len)%nat.
Proof.
  unfold slice_stop. destruct stop as [z |]; [| lia].
  destruct (Z.ltb_spec z 0); lia.
Qed.

Lemma slice_stop_nonneg z len :
  (0 <= z)%Z -> slice_stop (Some z) len = Nat.min (Z.to_nat z) len.
Proof. intros Hz. unfold slice_stop. destruct (Z.ltb_spec z 0); [lia | auto]. Qed.

Lemma length_vslice stop v : length (vslice stop v) = slice_stop stop (length v).
Proof.
  unfold vslice. rewrite length_firstn.
  pose proof (slice_stop_le stop (length v)). lia.
Qed.

Lemma nth_firstn_lt (n i : nat) (v : vector) :
  (i < n)%nat -> nth i (firstn n v) 0 = nth i v 0.
Proof.
  intros Hi. rewrite nth_firstn. destruct (Nat.ltb_spec i n); [auto | lia].
Qed.

Lemma sorted_descending_firstn n v :
  sorted_descending v -> sorted_descending (firstn n v).
Proof.
  intros Hs i j Hij. rewrite length_firstn in Hij.
  rewrite !nth_firstn_lt by lia. apply Hs. lia.
Qed.

Lemma all_nonneg_firstn n v : all_nonneg v -> all_nonneg (firstn n v).
Proof.
  intros Hs x Hx. apply Hs.
  rewrite <- (firstn_skipn n v). apply in_or_app. left. exact Hx.
Qed.

Lemma shape2_eq t r c : shape t = [r; c] -> shape2 t = (r, c).
Proof. unfold shape2. intros ->. reflexivity. Qed.

Lemma ndim_eq t r c : shape t = [r; c] -> ndim t = 2%nat.
Proof. unfold ndim. intros ->. reflexivity. Qed.

Lemma mshape_as_matrix t r c : shape t = [r; c] -> mshape (as_matrix t) = (r, c).
Proof. intros E. unfold as_matrix. rewrite (shape2_eq t r c E). reflexivity. Qed.

(* ------------------------------------------------------------------ *)
(** ** The rank clamp *)

Lemma clamp_rank_in_range (k : Z) (max_dim : nat) :
  (k <= Z.of_nat max_dim)%Z -> clamp_rank (Some k) max_dim = ret k.
Proof.
  intros Hk. unfold clamp_rank. destruct (Z.ltb_spec (Z.of_nat max_dim) k); [lia | auto].
Qed.

Lemma clamp_rank_above (k : Z) (max_dim : nat) :
  (Z.of_nat max_dim < k)%Z ->
  clamp_rank (Some k) max_dim
  = ([Warn (rank_warning k max_dim)], Ok (Z.of_nat max_dim)).
Proof.
  intros Hk. unfold clamp_rank. destruct (Z.ltb_spec (Z.of_nat max_dim) k); [auto | lia].
Qed.

(** Past the clamp, a run with a rank above [max_dim] is the run with
    [max_dim] itself, preceded by the warning. *)
Lemma bind_clamp_rank_above {A : Type} (k : Z) (max_dim : nat) (body : Z -> M A) :
  (Z.of_nat max_dim < k)%Z ->
  let m := bind (clamp_rank (Some (Z.of_nat max_dim)) max_dim) body in
  bind (clamp_rank (Some k) max_dim) body
  = (Warn (rank_warning k max_dim) :: trace m, outcome m).
Proof.
  intros Hk m. unfold m.
  rewrite clamp_rank_above by exact Hk.
  rewrite clamp_rank_in_range by lia.
  unfold bind, ret. destruct (body (Z.of_nat max_dim)) as [t r]. reflexivity.
Qed.

(* ------------------------------------------------------------------ *)
(** ** [truncated_svd] *)

Lemma truncated_svd_2d `{B : Backend} t m n ne :
  shape t = [m; n] ->
  truncated_svd t ne =
  (n_eigenvecs <- clamp_rank ne (Nat.max m n) ;;
   '(U, Sv, V) <- tl_svd (as_matrix t) (Z.of_nat (Nat.min m n) <? n_eigenvecs)%Z ;;
   ret (slice_cols (Some n_eigenvecs) U, vslice (Some n_eigenvecs) Sv,
        slice_rows (Some n_eigenvecs) V)).
Proof.
  intros E. unfold truncated_svd.
  rewrite (ndim_eq t m n E), (shape2_eq t m n E). reflexivity.
Qed.

(** Every run of [truncated_svd] on a 2-D input returns; the shape of
    what it returns, for a rank that needs no clamp. *)
Lemma truncated_svd_runs `{B : Backend} `{!BackendSpec B} t m n k :
  shape t = [m; n] -> (k <= Z.of_nat (Nat.max m n))%Z ->
  runs (truncated_svd t (Some k)) []
    (fun '(U, Sv, V) =>
       nrows U = m /\ ncols V = n /\
       sorted_descending Sv /\ all_nonneg Sv /\
       ((0 <= k <= Z.of_nat (Nat.min m n))%Z ->
        ncols U = Z.to_nat k /\ length Sv = Z.to_nat k /\ nrows V = Z.to_nat k)).
Proof.
  intros E Hk. rewrite (truncated_svd_2d t m n (Some k) E).
  rewrite clamp_rank_in_range by exact Hk.
  pose proof (mshape_as_matrix t m n E) as HA. apply mshape_eq in HA as [HAr HAc].
  set (A := as_matrix t) in *.
  apply runs_bind_nil with (P := fun x => x = k); [apply runs_ret; auto |].
  intros ? ->.
  eapply runs_bind_nil; [apply runs_tl_svd |].
  intros [[U Sv] V] Hr. apply runs_ret.
  pose proof (svd_values A (Z.of_nat (Nat.min m n) <? k)%Z) as Hv.
  rewrite <- Hr in Hv. destruct Hv as [Hsort Hnn].
  assert (Hshape : nrows U = m /\ ncols V = n /\
            ((0 <= k <= Z.of_nat (Nat.min m n))%Z ->
             ncols U = Nat.min m n /\ length Sv = Nat.min m n /\ nrows V = Nat.min m n)).
  { destruct (Z.ltb_spec (Z.of_nat (Nat.min m n)) k) as [Hfull | Hthin].
    - pose proof (svd_full_shape A) as Hs. rewrite <- Hr in Hs.
      destruct Hs as (HU & HS & HV).
      apply mshape_eq in HU as [? ?]. apply mshape_eq in HV as [? ?].
      repeat split; try lia.
    - pose proof (svd_thin_shape A) as Hs. rewrite <- Hr in Hs.
      destruct Hs as (HU & HS & HV).
      apply mshape_eq in HU as [? ?]. apply mshape_eq in HV as [? ?].
      repeat split; try lia. }
  destruct Hshape as (HUr & HVc & Hk').
  simpl. split; [exact HUr |]. split; [exact HVc |].
  split; [apply sorted_descending_firstn, Hsort |].
  split; [apply all_nonneg_firstn, Hnn |].
  intros Hrange. destruct (Hk' Hrange) as (HUc & HS & HVr).
  rewrite length_vslice, !slice_stop_nonneg by lia. lia.
Qed.

Lemma truncated_svd_clamped `{B : Backend} t m n k :
  shape t = [m; n] -> (Z.of_nat (Nat.max m n) < k)%Z ->
  let clamped := truncated_svd t (Some (Z.of_nat (Nat.max m n))) in
  truncated_svd t (Some k)
  = (Warn (rank_warning k (Nat.max m n)) :: trace clamped, outcome clamped).
Proof.
  intros E Hk clamped. unfold clamped.
  rewrite !(truncated_svd_2d t m n _ E).
  apply bind_clamp_rank_above. exact Hk.
Qed.

(* ------------------------------------------------------------------ *)
(** ** [symeig_svd] *)

Ltac enter_2d E :=
  rewrite (ndim_eq _ _ _ E), (shape2_eq _ _ _ E);
  change (negb (2 =? 2)%nat) with false; cbv beta iota.

Lemma symeig_svd_runs `{B : Backend} `{!BackendSpec B} t m n :
  shape t = [m; n] ->
  exists Uf Vf,
    mshape Uf = (m, Nat.max m n) /\ mshape Vf = (Nat.max m n, n) /\
    forall k, (k <= Z.of_nat (Nat.max m n))%Z ->
      runs (symeig_svd t (Some k)) []
        (fun r => r =
           (slice_cols (Some (Z.min (Z.of_nat m) k)) Uf,
            vslice (Some (Z.min (Z.min (Z.of_nat m) (Z.of_nat n)) k))
                   (symeig_values t),
            slice_rows (Some (Z.min (Z.of_nat n) k)) Vf)).
Proof.
  intros E.
  pose proof (mshape_as_matrix t m n E) as HA. apply mshape_eq in HA as [HAr HAc].
  unfold symeig_svd, symeig_values, gram_matrix. enter_2d E.
  set (A := as_matrix t) in *. clearbody A. set (e := eps (tdtype t)).
  match goal with
  | |- context [if (n <? m)%nat then ?a else ?b] =>
      set (inner := if (n <? m)%nat then a else b)
  end.
  assert (Hin : runs inner []
            (fun '(U, Sv, V) =>
               mshape U = (m, Nat.max m n) /\
               Sv = vmap sqrt (vmap (clip_min e)
                      (fst (backend_eigh
                         (if (n <? m)%nat then dot A (transpose A)
                          else dot (transpose A) A)))) /\
               mshape V = (n, Nat.max m n))).
  { unfold inner. destruct (Nat.ltb_spec n m) as [Hnm | Hnm].
    - eapply runs_bind_nil; [apply runs_tl_dot; simpl; lia |].
      intros G ->.
      eapply runs_bind_nil; [apply runs_tl_eigh |].
      intros [w Q] Hr.
      pose proof (eigh_shape (dot A (transpose A)) eq_refl) as Hs.
      rewrite <- Hr in Hs. destruct Hs as [Hw HQ]. simpl in Hw, HQ.
      apply mshape_eq in HQ as [HQr HQc].
      eapply runs_bind_nil.
      { apply runs_broadcast_cols. unfold vmap. rewrite !length_map. lia. }
      intros US HUS. apply mshape_eq in HUS as [HUSr HUSc].
      eapply runs_bind_nil; [apply runs_tl_dot; simpl; lia |].
      intros V ->. apply runs_ret.
      repeat split.
      + apply mshape_eq. lia.
      + rewrite <- Hr. reflexivity.
      + apply mshape_eq. simpl. lia.
    - eapply runs_bind_nil; [apply runs_tl_dot; simpl; lia |].
      intros G ->.
      eapply runs_bind_nil; [apply runs_tl_eigh |].
      intros [w Q] Hr.
      pose proof (eigh_shape (dot (transpose A) A) eq_refl) as Hs.
      rewrite <- Hr in Hs. destruct Hs as [Hw HQ]. simpl in Hw, HQ.
      apply mshape_eq in HQ as [HQr HQc].
      eapply runs_bind_nil; [apply runs_tl_dot; simpl; lia |].
      intros AV ->.
      eapply runs_bind_nil.
      { apply runs_broadcast_cols. unfold vmap. rewrite !length_map. simpl. lia. }
      intros U HU. apply mshape_eq in HU as [HUr HUc]. simpl in HUr, HUc.
      apply runs_ret.
      repeat split.
      + apply mshape_eq. lia.
      + rewrite <- Hr. reflexivity.
      + apply mshape_eq. lia. }
  destruct Hin as ([[U Sv] V] & Hout & Hw & HU & HS & HV).
  destruct inner as [tr r]. simpl in Hout, Hw. subst r.
  apply mshape_eq in HU as [HUr HUc]. apply mshape_eq in HV as [HVr HVc].
  exists (flip_cols U), (flip_rows (transpose V)).
  split; [apply mshape_eq; simpl; lia |].
  split; [apply mshape_eq; simpl; lia |].
  intros k Hk. rewrite clamp_rank_in_range by exact Hk.
  eexists. unfold bind, ret, outcome, trace; simpl.
  split; [reflexivity |]. split.
  - rewrite app_nil_r. exact Hw.
  - rewrite HS. reflexivity.
Qed.

Lemma symeig_svd_clamped `{B : Backend} t m n k :
  shape t = [m; n] -> (Z.of_nat (Nat.max m n) < k)%Z ->
  let clamped := symeig_svd t (Some (Z.of_nat (Nat.max m n))) in
  symeig_svd t (Some k)
  = (Warn (rank_warning k (Nat.max m n)) :: trace clamped, outcome clamped).
Proof.
  intros E Hk clamped. unfold clamped, symeig_svd. enter_2d E.
  apply bind_clamp_rank_above. exact Hk.
Qed.

(* ------------------------------------------------------------------ *)
(** ** [randomized_range_finder] and [randomized_svd] *)

Lemma power_iterations_runs `{B : Backend} `{!BackendSpec B} n_iter A A_H :
  mshape A_H = (ncols A, nrows A) ->
  forall Q, nrows Q = nrows A ->
  runs (power_iterations n_iter A A_H Q) []
    (fun Q' => nrows Q' = nrows A /\
               (Nat.min (Nat.min (nrows A) (ncols A)) (ncols Q) <= ncols Q')%nat).
Proof.
  intros HAH. apply mshape_eq in HAH as [HAHr HAHc].
  induction n_iter as [| n_iter IH]; intros Q HQ.
  - apply runs_ret. split; [exact HQ | lia].
  - cbn [power_iterations].
    eapply runs_bind_nil; [apply runs_tl_dot; lia |]. intros P ->.
    eapply runs_bind_nil; [apply runs_tl_qr |]. intros [Q1 R1] Hr1.
    pose proof (qr_shape (dot A_H Q)) as Hs1. rewrite <- Hr1 in Hs1.
    destruct Hs1 as [HQ1 _]. apply mshape_eq in HQ1 as [HQ1r HQ1c].
    simpl in HQ1r, HQ1c.
    eapply runs_bind_nil; [apply runs_tl_dot; lia |]. intros P2 ->.
    eapply runs_bind_nil; [apply runs_tl_qr |]. intros [Q2 R2] Hr2.
    pose proof (qr_shape (dot A Q1)) as Hs2. rewrite <- Hr2 in Hs2.
    destruct Hs2 as [HQ2 _]. apply mshape_eq in HQ2 as [HQ2r HQ2c].
    simpl in HQ2r, HQ2c.
    eapply runs_weaken; [apply IH; lia |].
    intros Q' [H1 H2]. split; [exact H1 | lia].
Qed.

Lemma randomized_range_finder_runs `{B : Backend} `{!BackendSpec B}
    A n_dims n_iter rs :
  (0 <= n_dims)%Z ->
  runs (randomized_range_finder A n_dims n_iter rs) []
    (fun Q => nrows Q = nrows A /\
              (Nat.min (Nat.min (nrows A) (ncols A)) (Z.to_nat n_dims)
               <= ncols Q)%nat).
Proof.
  intros Hd. unfold randomized_range_finder, mshape.
  eapply runs_bind_nil; [apply runs_rng_normal; exact Hd |]. intros Q0 ->.
  pose proof (normal_shape rs (ncols A) (Z.to_nat n_dims)) as H0.
  apply mshape_eq in H0 as [H0r H0c].
  eapply runs_bind_nil; [apply runs_tl_dot; lia |]. intros P ->.
  eapply runs_bind_nil; [apply runs_tl_qr |]. intros [Q R] Hr.
  pose proof (qr_shape (dot A (backend_normal rs (ncols A) (Z.to_nat n_dims)))) as Hs.
  rewrite <- Hr in Hs. destruct Hs as [HQ _].
  apply mshape_eq in HQ as [HQr HQc]. simpl in HQr, HQc.
  eapply runs_weaken.
  - apply power_iterations_runs; [reflexivity | exact HQr].
  - intros Q' [H1 H2]. split; [exact H1 | lia].
Qed.

Lemma shape_of_matrix d np Mx : shape (of_matrix d np Mx) = [nrows Mx; ncols Mx].
Proof. reflexivity. Qed.

(** Every run of [randomized_svd] on a 2-D input with a drawable
    subspace dimension returns; the shape of what it returns. *)
Lemma randomized_svd_runs `{B : Backend} `{!BackendSpec B}
    t m n k n_oversamples n_iter rs :
  shape t = [m; n] -> (k <= Z.of_nat (Nat.max m n))%Z ->
  (0 <= k + n_oversamples)%Z ->
  runs (randomized_svd t (Some k) n_oversamples n_iter rs) []
    (fun '(U, Sv, V) =>
       nrows U = m /\ ncols V = n /\
       sorted_descending Sv /\ all_nonneg Sv /\
       ((0 <= k <= Z.of_nat (Nat.min m n))%Z -> (0 <= n_oversamples)%Z ->
        ncols U = Z.to_nat k /\ length Sv = Z.to_nat k /\ nrows V = Z.to_nat k)).
Proof.
  intros E Hk Hko.
  pose proof (mshape_as_matrix t m n E) as HA. apply mshape_eq in HA as [HAr HAc].
  unfold randomized_svd. enter_2d E.
  set (A := as_matrix t) in *. clearbody A.
  rewrite clamp_rank_in_range by exact Hk.
  apply runs_bind_nil with (P := fun x => x = k); [apply runs_ret; auto |].
  intros ? ->.
  set (d := Z.min (k + n_oversamples) (Z.of_nat (Nat.max m n))).
  assert (Hd : (0 <= d)%Z) by (unfold d; lia).
  match goal with |- runs (if ?c then _ else _) _ _ => destruct c eqn:Hc end.
  - (* the transposed path *)
    assert (Hkm : (k <= Z.of_nat m)%Z).
    { apply orb_true_iff in Hc as [Hc | Hc]; apply andb_true_iff in Hc as [H1 H2].
      - apply Nat.ltb_lt in H1. lia.
      - apply Nat.ltb_lt in H1. apply Z.ltb_lt in H2. lia. }
    eapply runs_bind_nil; [apply randomized_range_finder_runs; exact Hd |].
    intros Q [HQr HQc]. simpl in HQr, HQc.
    eapply runs_bind_nil; [apply runs_tl_dot; simpl; lia |]. intros P ->.
    eapply runs_bind_nil.
    { eapply truncated_svd_runs; [apply shape_of_matrix |]. simpl. lia. }
    intros [[U Sv] V] (HUr & HVc & Hsort & Hnn & Hexact). simpl in HUr, HVc, Hexact.
    eapply runs_bind_nil; [apply runs_tl_dot; simpl; lia |]. intros V' ->.
    apply runs_ret. simpl.
    split; [lia |]. split; [lia |]. split; [exact Hsort |]. split; [exact Hnn |].
    intros Hrange Ho. apply Hexact. unfold d in HQc. lia.
  - (* the direct path *)
    assert (Hkn : (k <= Z.of_nat n)%Z).
    { apply orb_false_iff in Hc as [Hc _]. apply andb_false_iff in Hc as [H1 | H1].
      - apply Nat.ltb_ge in H1. lia.
      - apply Z.ltb_ge in H1. lia. }
    eapply runs_bind_nil; [apply randomized_range_finder_runs; exact Hd |].
    intros Q [HQr HQc].
    eapply runs_bind_nil; [apply runs_tl_dot; simpl; lia |]. intros P ->.
    eapply runs_bind_nil.
    { eapply truncated_svd_runs; [apply shape_of_matrix |]. simpl. lia. }
    intros [[U Sv] V] (HUr & HVc & Hsort & Hnn & Hexact). simpl in HUr, HVc, Hexact.
    eapply runs_bind_nil; [apply runs_tl_dot; simpl; lia |]. intros U' ->.
    apply runs_ret. simpl.
    split; [lia |]. split; [lia |]. split; [exact Hsort |]. split; [exact Hnn |].
    intros Hrange Ho. apply Hexact. unfold d in HQc. lia.
Qed.

Lemma randomized_svd_clamped `{B : Backend} t m n k n_oversamples n_iter rs :
  shape t = [m; n] -> (Z.of_nat (Nat.max m n) < k)%Z ->
  let clamped :=
    randomized_svd t (Some (Z.of_nat (Nat.max m n))) n_oversamples n_iter rs in
  randomized_svd t (Some k) n_oversamples n_iter rs
  = (Warn (rank_warning k (Nat.max m n)) :: trace clamped, outcome clamped).
Proof.
  intros E Hk clamped. unfold clamped, randomized_svd. enter_2d E.
  apply bind_clamp_rank_above. exact Hk.
Qed.

(* ------------------------------------------------------------------ *)
(** ** Order of the singular values *)

Lemma eps_pos (d : dtype) : 0 < eps d.
Proof. destruct d; unfold eps; apply Rinv_0_lt_compat, pow_lt; lra. Qed.

Lemma clip_min_ge (lo x : R) : lo <= clip_min lo x.
Proof. unfold clip_min. case_Rltb; lra. Qed.

Lemma clip_min_monotone (lo x y : R) : x <= y -> clip_min lo x <= clip_min lo y.
Proof. intros H. unfold clip_min. case_Rltb; lra. Qed.

Lemma nth_vmap (f : R -> R) (v : vector) (i : nat) :
  (i < length v)%nat -> nth i (vmap f v) 0 = f (nth i v 0).
Proof.
  intros Hi. unfold vmap.
  rewrite (nth_indep _ 0 (f 0)) by (rewrite length_map; exact Hi).
  apply map_nth.
Qed.

Lemma sorted_ascending_vmap (f : R -> R) (v : vector) :
  (forall x y, x <= y -> f x <= f y) ->
  sorted_ascending v -> sorted_ascending (vmap f v).
Proof.
  intros Hf Hv i j Hij. unfold vmap in Hij. rewrite length_map in Hij.
  rewrite !nth_vmap by lia. apply Hf, Hv. exact Hij.
Qed.

Lemma sorted_descending_rev (v : vector) :
  sorted_ascending v -> sorted_descending (rev v).
Proof.
  intros Hv i j Hij. rewrite length_rev in Hij.
  rewrite !rev_nth by lia. apply Hv. lia.
Qed.

Lemma all_ge_vmap_clip (lo : R) (v : vector) (x : R) :
  In x (vmap (clip_min lo) v) -> lo <= x.
Proof.
  unfold vmap. intros H. apply in_map_iff in H as (y & <- & _). apply clip_min_ge.
Qed.

Lemma all_nonneg_vmap_sqrt (v : vector) : all_nonneg (vmap sqrt v).
Proof.
  intros x H. unfold vmap in H. apply in_map_iff in H as (y & <- & _). apply sqrt_pos.
Qed.

(* ------------------------------------------------------------------ *)
(** ** [partial_svd] *)

Lemma runs_conversion_notice (t : tensor) :
  runs (if negb (is_ndarray t) then warn numpy_warning else ret tt)
       (conversion_notice t) (fun _ => True).
Proof.
  unfold conversion_notice. destruct (is_ndarray t); simpl.
  - apply runs_ret. exact I.
  - apply runs_warn.
Qed.

(** The dense branch: no rank, or a rank of at least [min_dim]. *)
Lemma partial_svd_dense_runs `{B : Backend} `{!BackendSpec B} t m n ne rs :
  shape t = [m; n] ->
  match ne with None => True | Some k => (Z.of_nat (Nat.min m n) <= k)%Z end ->
  runs (partial_svd t ne rs) (conversion_notice t)
    (fun '(U, Sv, V) =>
       nrows U = m /\ ncols V = n /\
       sorted_descending Sv /\ all_nonneg Sv /\
       (ne = Some (Z.of_nat (Nat.min m n)) ->
        ncols U = Nat.min m n /\ length Sv = Nat.min m n /\
        nrows V = Nat.min m n)).
Proof.
  intros E Hne.
  pose proof (mshape_as_matrix t m n E) as HA. apply mshape_eq in HA as [HAr HAc].
  unfold partial_svd. enter_2d E.
  set (A := as_matrix t) in *. clearbody A.
  rewrite <- (app_nil_r (conversion_notice t)).
  eapply runs_bind; [apply runs_conversion_notice |]. intros _ _.
  match goal with |- runs (if ?c then _ else _) _ _ =>
    assert (Hc : c = true) by (destruct ne; [apply Z.leb_le; exact Hne | reflexivity]);
    rewrite Hc
  end.
  eapply runs_bind_nil; [apply runs_tl_svd |].
  intros [[U Sv] V] Hr. apply runs_ret.
  match type of Hr with _ = backend_svd A ?full =>
    pose proof (svd_values A full) as Hv; rewrite <- Hr in Hv;
    destruct Hv as [Hsort Hnn]
  end.
  assert (Hshape : nrows U = m /\ ncols V = n /\
            (ne = Some (Z.of_nat (Nat.min m n)) ->
             ncols U = Nat.min m n /\ length Sv = Nat.min m n /\ nrows V = Nat.min m n)).
  { destruct ne as [k |].
    - destruct (Z.ltb_spec (Z.of_nat (Nat.min m n)) k) as [Hfull | Hthin].
      + pose proof (svd_full_shape A) as Hs. rewrite <- Hr in Hs.
        destruct Hs as (HU & HS & HV).
        apply mshape_eq in HU as [? ?]. apply mshape_eq in HV as [? ?].
        split; [lia |]. split; [lia |]. intros Heq. injection Heq as ->. lia.
      + pose proof (svd_thin_shape A) as Hs. rewrite <- Hr in Hs.
        destruct Hs as (HU & HS & HV).
        apply mshape_eq in HU as [? ?]. apply mshape_eq in HV as [? ?].
        split; [lia |]. split; [lia |]. intros _. lia.
    - pose proof (svd_full_shape A) as Hs. rewrite <- Hr in Hs.
      destruct Hs as (HU & HS & HV).
      apply mshape_eq in HU as [? ?]. apply mshape_eq in HV as [? ?].
      split; [lia |]. split; [lia |]. discriminate. }
  destruct Hshape as (HUr & HVc & Hk').
  simpl. split; [exact HUr |]. split; [exact HVc |].
  split; [apply sorted_descending_firstn, Hsort |].
  split; [apply all_nonneg_firstn, Hnn |].
  intros ->. destruct (Hk' eq_refl) as (HUc & HS & HVr).
  rewrite length_vslice, !slice_stop_nonneg by lia. lia.
Qed.

(** The sparse branch: a rank strictly between 0 and [min_dim]. *)
Lemma partial_svd_sparse_runs `{B : Backend} `{!BackendSpec B} t m n k rs :
  shape t = [m; n] -> (0 < k < Z.of_nat (Nat.min m n))%Z ->
  runs (partial_svd t (Some k) rs) (conversion_notice t)
    (fun '(U, Sv, V) =>
       mshape U = (m, Z.to_nat k) /\
       length Sv = Z.to_nat k /\ sorted_descending Sv /\
       (forall x, In x Sv -> eps (tdtype t) <= x) /\
       mshape V = (Z.to_nat k, n)).
Proof.
  intros E Hk.
  pose proof (mshape_as_matrix t m n E) as HA. apply mshape_eq in HA as [HAr HAc].
  unfold partial_svd. enter_2d E.
  set (A := as_matrix t) in *. clearbody A. set (e := eps (tdtype t)).
  rewrite <- (app_nil_r (conversion_notice t)).
  eapply runs_bind; [apply runs_conversion_notice |]. intros _ _.
  destruct (Z.leb_spec (Z.of_nat (Nat.min m n)) k) as [Hge | _]; [lia |].
  eapply runs_bind_nil; [apply runs_rng_uniform |]. intros v0 _.
  assert (Hvalues : forall w, length w = Z.to_nat k -> sorted_ascending w ->
            let Sv := rev (vmap (clip_min e) (vmap sqrt (vmap (clip_min 0) w))) in
            length Sv = Z.to_nat k /\ sorted_descending Sv /\
            (forall x, In x Sv -> e <= x)).
  { intros w Hlen Hasc Sv. unfold Sv. split; [| split].
    - rewrite length_rev. unfold vmap. rewrite !length_map. exact Hlen.
    - apply sorted_descending_rev.
      apply sorted_ascending_vmap; [apply clip_min_monotone |].
      apply sorted_ascending_vmap; [apply sqrt_le_1_alt |].
      apply sorted_ascending_vmap; [apply clip_min_monotone | exact Hasc].
    - intros x Hx. apply in_rev in Hx. eapply all_ge_vmap_clip; eauto. }
  eapply runs_bind_nil with
    (P := fun '(U, Sv, V) =>
            mshape U = (m, Z.to_nat k) /\
            length Sv = Z.to_nat k /\ sorted_descending Sv /\
            (forall x, In x Sv -> e <= x) /\
            mshape V = (n, Z.to_nat k)).
  - destruct (Nat.ltb_spec m n) as [Hmn | Hmn].
    + eapply runs_bind_nil; [apply runs_tl_dot; simpl; lia |]. intros G ->.
      eapply runs_bind_nil; [apply runs_eigsh; lia |]. intros [w Q] Hr.
      pose proof (eigsh_shape (dot A (conj (transpose A))) (Z.to_nat k) v0 eq_refl) as Hs.
      pose proof (eigsh_values (dot A (conj (transpose A))) (Z.to_nat k) v0) as Hasc.
      rewrite <- Hr in Hs, Hasc. destruct Hs as [Hw HQ]. simpl in Hw, HQ, Hasc.
      apply mshape_eq in HQ as [HQr HQc].
      destruct (Hvalues w Hw Hasc) as (HSl & HSs & HSe).
      eapply runs_bind_nil.
      { apply runs_broadcast_cols. unfold guarded_inverse, vmap. rewrite !length_map. lia. }
      intros UI HUI. apply mshape_eq in HUI as [HUIr HUIc].
      eapply runs_bind_nil; [apply runs_tl_dot; simpl; lia |]. intros V ->.
      eapply runs_bind_nil; [apply runs_tl_qr |]. intros [Q1 R1] Hr1.
      match type of Hr1 with _ = backend_qr ?X => pose proof (qr_shape X) as Hs1 end.
      rewrite <- Hr1 in Hs1. destruct Hs1 as [HQ1 HR1].
      apply mshape_eq in HQ1 as [HQ1r HQ1c]. apply mshape_eq in HR1 as [HR1r HR1c].
      simpl in HQ1r, HQ1c, HR1r, HR1c.
      eapply runs_bind_nil.
      { apply runs_broadcast_cols. unfold diag_signs, diag, vmap.
        rewrite !length_map, length_seq. lia. }
      intros V' HV'. apply mshape_eq in HV' as [HV'r HV'c].
      apply runs_ret.
      split; [apply mshape_eq; simpl; lia |]. split; [exact HSl |].
      split; [exact HSs |]. split; [exact HSe |]. apply mshape_eq. lia.
    + eapply runs_bind_nil; [apply runs_tl_dot; simpl; lia |]. intros G ->.
      eapply runs_bind_nil; [apply runs_eigsh; lia |]. intros [w Q] Hr.
      pose proof (eigsh_shape (dot (conj (transpose A)) A) (Z.to_nat k) v0 eq_refl) as Hs.
      pose proof (eigsh_values (dot (conj (transpose A)) A) (Z.to_nat k) v0) as Hasc.
      rewrite <- Hr in Hs, Hasc. destruct Hs as [Hw HQ]. simpl in Hw, HQ, Hasc.
      apply mshape_eq in HQ as [HQr HQc].
      destruct (Hvalues w Hw Hasc) as (HSl & HSs & HSe).
      eapply runs_bind_nil; [apply runs_tl_dot; simpl; lia |]. intros AV ->.
      eapply runs_bind_nil.
      { apply runs_broadcast_cols. unfold guarded_inverse, vmap.
        rewrite !length_map. simpl. lia. }
      intros U HU. apply mshape_eq in HU as [HUr HUc]. simpl in HUr, HUc.
      eapply runs_bind_nil; [apply runs_tl_qr |]. intros [Q1 R1] Hr1.
      match type of Hr1 with _ = backend_qr ?X => pose proof (qr_shape X) as Hs1 end.
      rewrite <- Hr1 in Hs1. destruct Hs1 as [HQ1 HR1].
      apply mshape_eq in HQ1 as [HQ1r HQ1c]. apply mshape_eq in HR1 as [HR1r HR1c].
      simpl in HQ1r, HQ1c, HR1r, HR1c.
      eapply runs_bind_nil.
      { apply runs_broadcast_cols. unfold diag_signs, diag, vmap.
        rewrite !length_map, length_seq. lia. }
      intros U' HU'. apply mshape_eq in HU' as [HU'r HU'c].
      apply runs_ret.
      split; [apply mshape_eq; lia |]. split; [exact HSl |].
      split; [exact HSs |]. split; [exact HSe |]. apply mshape_eq. simpl. lia.
  - intros [[U Sv] V] (HU & HSl & HSs & HSe & HV). apply runs_ret.
    apply mshape_eq in HV as [HVr HVc].
    split; [exact HU |]. split; [exact HSl |]. split; [exact HSs |].
    split; [exact HSe |]. apply mshape_eq. simpl. lia.
Qed.

(* ------------------------------------------------------------------ *)
(** ** The concrete backend meets the contract *)

Lemma sorted_repeat_zero (n : nat) :
  sorted_ascending (repeat 0 n) /\ sorted_descending (repeat 0 n) /\
  all_nonneg (repeat 0 n).
Proof.
  assert (Hnth : forall i, nth i (repeat 0 n) 0 = 0) by (intros; apply nth_repeat).
  split; [| split].
  - intros i j _. rewrite !Hnth. lra.
  - intros i j _. rewrite !Hnth. lra.
  - intros x Hx. apply repeat_spec in Hx. lra.
Qed.

#[export] Instance zero_exact_backend_spec : BackendSpec zero_exact_backend.
Proof.
  constructor; simpl; intros.
  - rewrite repeat_length. auto.
  - rewrite repeat_length. auto.
  - destruct full; split; apply sorted_repeat_zero.
  - rewrite repeat_length. auto.
  - apply sorted_repeat_zero.
  - rewrite repeat_length. auto.
  - apply sorted_repeat_zero.
  - auto.
  - reflexivity.
  - apply repeat_length.
Qed.

(* ------------------------------------------------------------------ *)
(** ** The singular values of [symeig_svd] *)

Lemma gram_matrix_square t m n :
  shape t = [m; n] ->
  nrows (gram_matrix t) = Nat.max m n /\ ncols (gram_matrix t) = Nat.max m n.
Proof.
  intros E. pose proof (mshape_as_matrix t m n E) as HA.
  apply mshape_eq in HA as [HAr HAc].
  unfold gram_matrix. rewrite (shape2_eq t m n E).
  set (A := as_matrix t) in *. clearbody A.
  destruct (Nat.ltb_spec n m); simpl; lia.
Qed.

Lemma symeig_values_spec `{B : Backend} `{!BackendSpec B} t m n :
  shape t = [m; n] ->
  length (symeig_values t) = Nat.max m n /\
  sorted_descending (symeig_values t) /\
  (forall x, In x (symeig_values t) -> sqrt (eps (tdtype t)) <= x).
Proof.
  intros E. destruct (gram_matrix_square t m n E) as [Hr Hc].
  pose proof (eigh_shape (gram_matrix t)) as Hs.
  pose proof (eigh_values (gram_matrix t)) as Hasc.
  unfold symeig_values.
  destruct (backend_eigh (gram_matrix t)) as [w Q]. simpl in *.
  destruct Hs as [Hw _]; [lia |].
  split; [| split].
  - rewrite length_rev. unfold vmap. rewrite !length_map. lia.
  - apply sorted_descending_rev.
    apply sorted_ascending_vmap; [apply sqrt_le_1_alt |].
    apply sorted_ascending_vmap; [apply clip_min_monotone | exact Hasc].
  - intros x Hx. apply in_rev in Hx. unfold vmap in Hx.
    apply in_map_iff in Hx as (y & <- & Hy).
    apply in_map_iff in Hy as (z & <- & _).
    apply sqrt_le_1_alt, clip_min_ge.
Qed.

(* ------------------------------------------------------------------ *)
(** ** The claims about the four strategies *)

(** C3. Each of the four strategies, given an input that is not exactly
    2-dimensional, raises the [ValueError] of the dimension check, and
    does so before any warning is emitted or any backend primitive is
    run: the trace of the run is empty. *)
Theorem strategies_reject_non_2d `{B : Backend} (t : tensor)
    (n_eigenvecs : option Z) (n_oversamples : Z) (n_iter : nat)
    (rs : random_state) :
  ndim t <> 2%nat ->
  let rejected := ([], Err (ValueError (ndim_message (ndim t)))) in
  partial_svd t n_eigenvecs rs = rejected /\
  truncated_svd t n_eigenvecs = rejected /\
  symeig_svd t n_eigenvecs = rejected /\
  randomized_svd t n_eigenvecs n_oversamples n_iter rs = rejected.
Proof.
  intros Hnd rejected.
  unfold partial_svd, truncated_svd, symeig_svd, randomized_svd, rejected.
  destruct (Nat.eqb_spec (ndim t) 2) as [E | _]; [contradiction |].
  simpl. auto.
Qed.

Lemma strategies_reject_non_2d_witness :
  partial_svd cube_tensor (Some 2%Z) None
    = ([], Err (ValueError (ndim_message 3))) /\
  truncated_svd cube_tensor (Some 2%Z)
    = ([], Err (ValueError (ndim_message 3))) /\
  symeig_svd cube_tensor (Some 2%Z)
    = ([], Err (ValueError (ndim_message 3))) /\
  randomized_svd cube_tensor (Some 2%Z) 5 2 None
    = ([], Err (ValueError (ndim_message 3))).
Proof.
  apply (strategies_reject_non_2d (B := zero_exact_backend)
           cube_tensor (Some 2%Z) 5 2 None).
  simpl. discriminate.
Defined.

Lemma all_nonneg_of_ge (lo : R) (v : vector) :
  0 <= lo -> (forall x, In x v -> lo <= x) -> all_nonneg v.
Proof. intros Hlo H x Hx. specialize (H x Hx). lra. Qed.

(** C1. On a 2-D input of shape (rows, cols), with a rank [k] such that
    0 < k <= min(rows, cols) and a non-negative oversampling, each of the
    four strategies returns a triplet (U, S, V): U is rows x k, S has k
    entries that are non-negative and non-increasing, V is k x cols.  The
    backend is any backend that meets its contract. *)
Theorem strategies_return_rank_k_triplet `{B : Backend} `{!BackendSpec B}
    (t : tensor) (rows cols k : nat) (n_oversamples : Z) (n_iter : nat)
    (rs : random_state) :
  shape t = [rows; cols] ->
  (0 < k <= Nat.min rows cols)%nat ->
  (0 <= n_oversamples)%Z ->
  runs (partial_svd t (Some (Z.of_nat k)) rs) (conversion_notice t)
       (rank_k_triplet rows cols k) /\
  runs (truncated_svd t (Some (Z.of_nat k))) [] (rank_k_triplet rows cols k) /\
  runs (symeig_svd t (Some (Z.of_nat k))) [] (rank_k_triplet rows cols k) /\
  runs (randomized_svd t (Some (Z.of_nat k)) n_oversamples n_iter rs) []
       (rank_k_triplet rows cols k).
Proof.
  intros E Hk Ho. split; [| split; [| split]].
  - destruct (Nat.eq_dec k (Nat.min rows cols)) as [-> | Hne].
    + eapply runs_weaken.
      * apply (partial_svd_dense_runs t rows cols
                 (Some (Z.of_nat (Nat.min rows cols))) rs E). lia.
      * intros [[U Sv] V] (HUr & HVc & Hsort & Hnn & Hexact).
        destruct (Hexact eq_refl) as (HUc & HS & HVr).
        unfold rank_k_triplet. rewrite !mshape_eq. auto 10.
    + eapply runs_weaken.
      * apply (partial_svd_sparse_runs t rows cols (Z.of_nat k) rs E). lia.
      * intros [[U Sv] V] (HU & HS & Hsort & Hge & HV).
        rewrite Nat2Z.id in *. unfold rank_k_triplet.
        repeat split; auto.
        apply (all_nonneg_of_ge (eps (tdtype t))); [| exact Hge].
        apply Rlt_le, eps_pos.
  - eapply runs_weaken.
    + apply (truncated_svd_runs t rows cols (Z.of_nat k) E). lia.
    + intros [[U Sv] V] (HUr & HVc & Hsort & Hnn & Hexact).
      destruct Hexact as (HUc & HS & HVr); [lia |].
      rewrite Nat2Z.id in *. unfold rank_k_triplet. rewrite !mshape_eq. auto 10.
  - destruct (symeig_svd_runs t rows cols E) as (Uf & Vf & HUf & HVf & Hrun).
    destruct (symeig_values_spec t rows cols E) as (Hlen & Hsort & Hge).
    apply mshape_eq in HUf as [HUr HUc]. apply mshape_eq in HVf as [HVr HVc].
    eapply runs_weaken; [apply (Hrun (Z.of_nat k)); lia |].
    intros r ->. unfold rank_k_triplet.
    split; [apply mshape_eq; simpl; rewrite slice_stop_nonneg by lia; lia |].
    split; [rewrite length_vslice, slice_stop_nonneg by lia; lia |].
    split; [apply sorted_descending_firstn, Hsort |].
    split.
    + apply all_nonneg_firstn.
      apply (all_nonneg_of_ge (sqrt (eps (tdtype t)))); [apply sqrt_pos | exact Hge].
    + apply mshape_eq; simpl. rewrite slice_stop_nonneg by lia. lia.
  - eapply runs_weaken.
    + apply (randomized_svd_runs t rows cols (Z.of_nat k) n_oversamples n_iter rs E); lia.
    + intros [[U Sv] V] (HUr & HVc & Hsort & Hnn & Hexact).
      destruct Hexact as (HUc & HS & HVr); [lia | lia |].
      rewrite Nat2Z.id in *. unfold rank_k_triplet. rewrite !mshape_eq. auto 10.
Qed.

Lemma strategies_return_rank_k_triplet_witness :
  let t := zeros_tensor 5 3 in
  runs (partial_svd t (Some 2%Z) None) (conversion_notice t)
       (rank_k_triplet 5 3 2) /\
  runs (truncated_svd t (Some 2%Z)) [] (rank_k_triplet 5 3 2) /\
  runs (symeig_svd t (Some 2%Z)) [] (rank_k_triplet 5 3 2) /\
  runs (randomized_svd t (Some 2%Z) 5 2 None) [] (rank_k_triplet 5 3 2).
Proof.
  apply (strategies_return_rank_k_triplet (B := zero_exact_backend)
           (zeros_tensor 5 3) 5 3 2 5 2 None).
  - reflexivity.
  - simpl. lia.
  - lia.
Defined.

Lemma runs_clamped {A : Type} (m clamped : M A) (w : string) (P : A -> Prop) :
  m = (Warn w :: trace clamped, outcome clamped) ->
  runs clamped [] P ->
  runs m [w] (fun r => outcome clamped = Ok r).
Proof.
  intros -> (a & Ha & HW & _). exists a. simpl.
  split; [exact Ha |]. split; [| exact Ha].
  unfold trace, warnings_of in *. simpl. rewrite HW. reflexivity.
Qed.

(** C2, as the code has it.  A rank above max(rows, cols) never raises.
    [truncated_svd], [symeig_svd] and [randomized_svd] emit exactly one
    warning and return what they return for the rank max(rows, cols).
    [partial_svd] returns too, but it neither clamps nor warns about the
    rank: its only possible warning is the conversion notice. *)
Theorem rank_above_max_dim_never_raises `{B : Backend} `{!BackendSpec B}
    (t : tensor) (rows cols : nat) (k n_oversamples : Z) (n_iter : nat)
    (rs : random_state) :
  shape t = [rows; cols] ->
  (Z.of_nat (Nat.max rows cols) < k)%Z ->
  (0 <= n_oversamples)%Z ->
  let max_dim := Nat.max rows cols in
  let clamped := Some (Z.of_nat max_dim) in
  runs (truncated_svd t (Some k)) [rank_warning k max_dim]
       (fun r => outcome (truncated_svd t clamped) = Ok r) /\
  runs (symeig_svd t (Some k)) [rank_warning k max_dim]
       (fun r => outcome (symeig_svd t clamped) = Ok r) /\
  runs (randomized_svd t (Some k) n_oversamples n_iter rs)
       [rank_warning k max_dim]
       (fun r => outcome (randomized_svd t clamped n_oversamples n_iter rs)
                 = Ok r) /\
  runs (partial_svd t (Some k) rs) (conversion_notice t) (fun _ => True).
Proof.
  intros E Hk Ho max_dim clamped. unfold clamped, max_dim.
  split; [| split; [| split]].
  - eapply runs_clamped; [apply (truncated_svd_clamped t rows cols k E Hk) |].
    apply (truncated_svd_runs t rows cols _ E). lia.
  - destruct (symeig_svd_runs t rows cols E) as (Uf & Vf & _ & _ & Hrun).
    eapply runs_clamped; [apply (symeig_svd_clamped t rows cols k E Hk) |].
    apply Hrun. lia.
  - eapply runs_clamped;
      [apply (randomized_svd_clamped t rows cols k n_oversamples n_iter rs E Hk) |].
    apply (randomized_svd_runs t rows cols _ n_oversamples n_iter rs E); lia.
  - eapply runs_weaken.
    + apply (partial_svd_dense_runs t rows cols (Some k) rs E). lia.
    + auto.
Qed.

Lemma rank_above_max_dim_never_raises_witness :
  let t := zeros_tensor 10 4 in
  runs (truncated_svd t (Some 15%Z)) [rank_warning 15 10]
       (fun r => outcome (truncated_svd t (Some 10%Z)) = Ok r) /\
  runs (symeig_svd t (Some 15%Z)) [rank_warning 15 10]
       (fun r => outcome (symeig_svd t (Some 10%Z)) = Ok r) /\
  runs (randomized_svd t (Some 15%Z) 5 2 None) [rank_warning 15 10]
       (fun r => outcome (randomized_svd t (Some 10%Z) 5 2 None) = Ok r) /\
  runs (partial_svd t (Some 15%Z) None) (conversion_notice t) (fun _ => True).
Proof.
  apply (rank_above_max_dim_never_raises (B := zero_exact_backend)
           (zeros_tensor 10 4) 10 4 15 5 2 None).
  - reflexivity.
  - simpl. lia.
  - lia.
Defined.

(** C2 as stated fails for [partial_svd]: on the 10 x 4 zero matrix with
    rank 15 = max(10, 4) + 5 it emits no warning at all, where
    [truncated_svd] emits the clamp warning. *)
Lemma partial_svd_rank_above_max_no_warning :
  warnings_of (trace (partial_svd (zeros_tensor 10 4) (Some 15%Z) None)) = [] /\
  warnings_of (trace (truncated_svd (zeros_tensor 10 4) (Some 15%Z)))
    = [rank_warning 15 10].
Proof.
  pose proof (partial_svd_dense_runs (B := zero_exact_backend)
                (zeros_tensor 10 4) 10 4 (Some 15%Z) None eq_refl) as Hp.
  destruct Hp as (r & _ & HW & _); [simpl; lia |].
  split; [exact HW |].
  assert (Ht : runs (truncated_svd (zeros_tensor 10 4) (Some 15%Z))
                 [rank_warning 15 (Nat.max 10 4)]
                 (fun r => outcome (truncated_svd (zeros_tensor 10 4)
                                      (Some (Z.of_nat (Nat.max 10 4)))) = Ok r)).
  { eapply runs_clamped.
    - apply (truncated_svd_clamped (B := zero_exact_backend)
               (zeros_tensor 10 4) 10 4 15 eq_refl). simpl. lia.
    - apply (truncated_svd_runs (B := zero_exact_backend)
               (zeros_tensor 10 4) 10 4 _ eq_refl). lia. }
  destruct Ht as (r' & _ & HW' & _). exact HW'.
Qed.

(** For every requested rank, clamped or not, [symeig_svd] returns the
    slices of the same three factors. *)
Lemma symeig_svd_outcome `{B : Backend} `{!BackendSpec B} t m n :
  shape t = [m; n] ->
  exists Uf Vf,
    mshape Uf = (m, Nat.max m n) /\ mshape Vf = (Nat.max m n, n) /\
    forall k : Z,
      outcome (symeig_svd t (Some k))
      = Ok (slice_cols (Some (Z.min (Z.of_nat m) k)) Uf,
            vslice (Some (Z.min (Z.min (Z.of_nat m) (Z.of_nat n)) k))
                   (symeig_values t),
            slice_rows (Some (Z.min (Z.of_nat n) k)) Vf).
Proof.
  intros E.
  destruct (symeig_svd_runs t m n E) as (Uf & Vf & HUf & HVf & Hrun).
  exists Uf, Vf. split; [exact HUf |]. split; [exact HVf |].
  intros k.
  destruct (Z.le_gt_cases k (Z.of_nat (Nat.max m n))) as [Hle | Hgt].
  - destruct (Hrun k Hle) as (r & Hr & _ & ->). exact Hr.
  - rewrite (symeig_svd_clamped t m n k E) by lia.
    destruct (Hrun (Z.of_nat (Nat.max m n)) (Z.le_refl _)) as (r & Hr & _ & ->).
    unfold outcome at 1. simpl snd. rewrite Hr.
    replace (Z.min (Z.of_nat m) k)
      with (Z.min (Z.of_nat m) (Z.of_nat (Nat.max m n))) by lia.
    replace (Z.min (Z.min (Z.of_nat m) (Z.of_nat n)) k)
      with (Z.min (Z.min (Z.of_nat m) (Z.of_nat n))
              (Z.of_nat (Nat.max m n))) by lia.
    replace (Z.min (Z.of_nat n) k)
      with (Z.min (Z.of_nat n) (Z.of_nat (Nat.max m n))) by lia.
    reflexivity.
Qed.

(** C8. [symeig_svd] truncates each output on its own bound.  There are
    factors Uf, Sf, Vf, the same for every requested rank [k], such that
    the call returns the first min(dim_1, k) columns of Uf, the first
    min(dim_1, dim_2, k) entries of Sf and the first min(dim_2, k) rows
    of Vf. *)
Theorem symeig_svd_truncates_each_axis `{B : Backend} `{!BackendSpec B}
    (t : tensor) (dim_1 dim_2 : nat) :
  shape t = [dim_1; dim_2] ->
  exists Uf Sf Vf,
    mshape Uf = (dim_1, Nat.max dim_1 dim_2) /\
    length Sf = Nat.max dim_1 dim_2 /\
    mshape Vf = (Nat.max dim_1 dim_2, dim_2) /\
    forall k : Z,
      let U := slice_cols (Some (Z.min (Z.of_nat dim_1) k)) Uf in
      let Sv := vslice (Some (Z.min (Z.min (Z.of_nat dim_1) (Z.of_nat dim_2)) k)) Sf in
      let V := slice_rows (Some (Z.min (Z.of_nat dim_2) k)) Vf in
      outcome (symeig_svd t (Some k)) = Ok (U, Sv, V) /\
      ((0 <= k)%Z ->
       mshape U = (dim_1, Nat.min dim_1 (Z.to_nat k)) /\
       length Sv = Nat.min (Nat.min dim_1 dim_2) (Z.to_nat k) /\
       mshape V = (Nat.min dim_2 (Z.to_nat k), dim_2)).
Proof.
  intros E.
  destruct (symeig_svd_outcome t dim_1 dim_2 E) as (Uf & Vf & HUf & HVf & Hout).
  destruct (symeig_values_spec t dim_1 dim_2 E) as (Hlen & _ & _).
  exists Uf, (symeig_values t), Vf.
  split; [exact HUf |]. split; [exact Hlen |]. split; [exact HVf |].
  apply mshape_eq in HUf as [HUr HUc]. apply mshape_eq in HVf as [HVr HVc].
  intros k U Sv V. split; [apply Hout |].
  intros Hk. unfold U, Sv, V.
  split; [apply mshape_eq; simpl; rewrite slice_stop_nonneg by lia; lia |].
  split; [rewrite length_vslice, slice_stop_nonneg by lia; lia |].
  apply mshape_eq; simpl. rewrite slice_stop_nonneg by lia. lia.
Qed.

Lemma symeig_svd_truncates_each_axis_witness :
  exists Uf Sf Vf,
    mshape Uf = (5, 5)%nat /\ length Sf = 5%nat /\ mshape Vf = (5, 3)%nat /\
    forall k : Z,
      let U := slice_cols (Some (Z.min 5 k)) Uf in
      let Sv := vslice (Some (Z.min (Z.min 5 3) k)) Sf in
      let V := slice_rows (Some (Z.min 3 k)) Vf in
      outcome (symeig_svd (zeros_tensor 5 3) (Some k)) = Ok (U, Sv, V) /\
      ((0 <= k)%Z ->
       mshape U = (5, Nat.min 5 (Z.to_nat k))%nat /\
       length Sv = Nat.min (Nat.min 5 3) (Z.to_nat k) /\
       mshape V = (Nat.min 3 (Z.to_nat k), 3)%nat).
Proof.
  exact (symeig_svd_truncates_each_axis (B := zero_exact_backend)
           (zeros_tensor 5 3) 5 3 eq_refl).
Defined.

(** C9, as the code has it.  In [symeig_svd] the eigenvalues of the Gram
    matrix are clipped at the machine epsilon of the dtype, not at zero,
    before the square root is taken: the square root is only applied to
    positive numbers, and every singular value is at least sqrt(eps). *)
Theorem symeig_svd_clips_eigenvalues_at_eps `{B : Backend} `{!BackendSpec B}
    (t : tensor) (dim_1 dim_2 : nat) (k : Z) :
  shape t = [dim_1; dim_2] ->
  let e := eps (tdtype t) in
  let clipped := vmap (clip_min e) (fst (backend_eigh (gram_matrix t))) in
  (forall y, In y clipped -> 0 < e <= y) /\
  symeig_values t = rev (vmap sqrt clipped) /\
  (forall x, In x (symeig_values t) -> 0 < sqrt e <= x) /\
  exists U V,
    outcome (symeig_svd t (Some k))
    = Ok (U,
          vslice (Some (Z.min (Z.min (Z.of_nat dim_1) (Z.of_nat dim_2)) k))
                 (symeig_values t),
          V).
Proof.
  intros E e clipped.
  pose proof (eps_pos (tdtype t)) as He. fold e in He.
  split; [| split; [| split]].
  - intros y Hy. split; [exact He |]. eapply all_ge_vmap_clip; eauto.
  - reflexivity.
  - intros x Hx. split; [apply sqrt_lt_R0; exact He |].
    destruct (symeig_values_spec t dim_1 dim_2 E) as (_ & _ & Hge). auto.
  - destruct (symeig_svd_outcome t dim_1 dim_2 E) as (Uf & Vf & _ & _ & Hout).
    eexists _, _. apply Hout.
Qed.

Lemma symeig_svd_clips_eigenvalues_at_eps_witness :
  let t := zeros_tensor 5 3 in
  let e := eps (tdtype t) in
  let clipped := vmap (clip_min e) (fst (backend_eigh (gram_matrix t))) in
  (forall y, In y clipped -> 0 < e <= y) /\
  symeig_values t = rev (vmap sqrt clipped) /\
  (forall x, In x (symeig_values t) -> 0 < sqrt e <= x) /\
  exists U V,
    outcome (symeig_svd t (Some 2%Z))
    = Ok (U, vslice (Some (Z.min (Z.min 5 3) 2)) (symeig_values t), V).
Proof.
  exact (symeig_svd_clips_eigenvalues_at_eps (B := zero_exact_backend)
           (zeros_tensor 5 3) 5 3 2 eq_refl).
Defined.

(** C9 as stated fails: on the 1 x 1 zero matrix the Gram matrix has the
    eigenvalue 0; clipped at zero it would give the singular value 0,
    but [symeig_svd] returns sqrt(eps), which is positive. *)
Lemma symeig_svd_zero_eigenvalue_counterexample :
  fst (backend_eigh (gram_matrix (zeros_tensor 1 1))) = [0] /\
  symeig_values_clipped_at_zero (zeros_tensor 1 1) = [0] /\
  symeig_values (zeros_tensor 1 1) = [sqrt (eps float64)] /\
  0 < sqrt (eps float64) /\
  exists U V,
    outcome (symeig_svd (zeros_tensor 1 1) (Some 1%Z))
    = Ok (U, [sqrt (eps float64)], V).
Proof.
  pose proof (eps_pos float64) as He.
  assert (Hv : symeig_values (zeros_tensor 1 1) = [sqrt (eps float64)]).
  { unfold symeig_values.
    change (fst (backend_eigh (gram_matrix (zeros_tensor 1 1)))) with [0].
    change (tdtype (zeros_tensor 1 1)) with float64.
    unfold vmap. cbn [map rev app]. unfold clip_min.
    rewrite (proj2 (Rltb_true 0 (eps float64))) by exact He. reflexivity. }
  split; [reflexivity |]. split; [| split; [exact Hv | split]].
  - unfold symeig_values_clipped_at_zero.
    change (fst (backend_eigh (gram_matrix (zeros_tensor 1 1)))) with [0].
    unfold vmap. cbn [map rev app]. unfold clip_min.
    rewrite (proj2 (Rltb_false 0 0)) by lra. rewrite sqrt_0. reflexivity.
  - apply sqrt_lt_R0. exact He.
  - destruct (symeig_svd_outcome (B := zero_exact_backend)
                (zeros_tensor 1 1) 1 1 eq_refl) as (Uf & Vf & _ & _ & Hout).
    eexists _, _. rewrite (Hout 1%Z), Hv. reflexivity.
Qed.

(** C10. In the sparse branch of [partial_svd], taken when
    0 < n_eigenvecs < min(rows, cols), the call returns and every
    returned singular value is at least the machine epsilon of the dtype,
    hence never 0. *)
Theorem partial_svd_sparse_values_at_least_eps `{B : Backend} `{!BackendSpec B}
    (t : tensor) (rows cols : nat) (n_eigenvecs : Z) (rs : random_state) :
  shape t = [rows; cols] ->
  (0 < n_eigenvecs < Z.of_nat (Nat.min rows cols))%Z ->
  runs (partial_svd t (Some n_eigenvecs) rs) (conversion_notice t)
    (fun '(U, Sv, V) =>
       length Sv = Z.to_nat n_eigenvecs /\
       forall x, In x Sv -> 0 < eps (tdtype t) <= x).
Proof.
  intros E Hk. eapply runs_weaken.
  - apply (partial_svd_sparse_runs t rows cols n_eigenvecs rs E Hk).
  - intros [[U Sv] V] (_ & Hlen & _ & Hge & _).
    split; [exact Hlen |]. intros x Hx. split; [apply eps_pos | auto].
Qed.

Lemma partial_svd_sparse_values_at_least_eps_witness :
  let t := zeros_tensor 5 3 in
  runs (partial_svd t (Some 2%Z) None) (conversion_notice t)
    (fun '(U, Sv, V) =>
       length Sv = Z.to_nat 2 /\
       forall x, In x Sv -> 0 < eps (tdtype t) <= x).
Proof.
  apply (partial_svd_sparse_values_at_least_eps (B := zero_exact_backend)
           (zeros_tensor 5 3) 5 3 2 None).
  - reflexivity.
  - simpl. lia.
Defined.

(* ------------------------------------------------------------------ *)
(** ** Evaluation on concrete real inputs *)

Lemma sqrt_of_zero (a : R) : a = 0 -> sqrt a = 0.
Proof. intros ->. apply sqrt_0. Qed.

Lemma sqrt_of_one (a : R) : a = 1 -> sqrt a = 1.
Proof. intros ->. apply sqrt_1. Qed.

Lemma Rinv_lt_1 (x : R) : 1 < x -> / x < 1.
Proof.
  intros Hx. assert (H0 : 0 < / x) by (apply Rinv_0_lt_compat; lra).
  assert (H1 : / x * x = 1) by (apply Rinv_l; lra). nra.
Qed.

Lemma eps_lt_1 (d : dtype) : eps d < 1.
Proof.
  destruct d; unfold eps; apply Rinv_lt_1, Rlt_pow_R1; lra || lia.
Qed.

Ltac R_red :=
  cbv - [Rltb Rleb Rabs Rmult Rplus Rminus Ropp Rdiv Rinv IZR sqrt eps].

Ltac R_step :=
  match goal with
  | |- context [Rabs ?a] =>
      first [rewrite (Rabs_right a) by lra | rewrite (Rabs_left a) by lra]
  | |- context [sqrt ?a] =>
      first [rewrite (sqrt_of_zero a) by lra | rewrite (sqrt_of_one a) by lra]
  | |- context [Rltb ?a ?b] =>
      first [rewrite (proj2 (Rltb_true a b)) by lra
            | rewrite (proj2 (Rltb_false a b)) by lra]
  end.

(** Evaluates a closed expression over concrete reals. *)
Ltac R_eval :=
  pose proof (eps_pos float64); pose proof (eps_lt_1 float64);
  R_red; repeat (R_step; R_red).

(* ------------------------------------------------------------------ *)
(** ** The sign factors of [svd_flip] *)

Lemma svd_flip_U1_V1 : svd_flip U1 V1 true = Ok (U1_flipped, V1_flipped).
Proof. R_eval. repeat f_equal; lra. Qed.

Lemma svd_flip_idempotent_witness :
  svd_flip U1 V1 true = Ok (U1_flipped, V1_flipped) /\
  svd_flip U1_flipped V1_flipped true = Ok (U1_flipped, V1_flipped).
Proof.
  split; [exact svd_flip_U1_V1 |].
  exact (svd_flip_idempotent U1 V1 true U1_flipped V1_flipped svd_flip_U1_V1).
Defined.

Lemma max_abs_entry_nonzero (f : nat -> R) (n : nat) :
  (exists i, (i < n)%nat /\ f i <> 0) ->
  let l := map (fun i => Rabs (f i)) (seq 0 n) in
  (argmax_idx l < n)%nat /\ f (argmax_idx l) <> 0.
Proof.
  intros (i & Hi & Hnz) l.
  assert (Hne : l <> []).
  { unfold l. destruct n; [lia | discriminate]. }
  pose proof (argmax_idx_lt l Hne) as Ha.
  unfold l in Ha at 2. rewrite length_map, length_seq in Ha.
  split; [exact Ha |].
  assert (Hin : In (Rabs (f i)) l).
  { unfold l. apply in_map_iff. exists i. split; [reflexivity |].
    apply in_seq. lia. }
  pose proof (argmax_idx_max l _ Hin) as Hmax.
  unfold l in Hmax at 2. rewrite nth_map_seq in Hmax by exact Ha.
  pose proof (Rabs_pos_lt _ Hnz) as Hpos.
  intros Hz. fold l in Hmax. rewrite Hz, Rabs_R0 in Hmax. lra.
Qed.

Lemma sign_unit (x : R) : x <> 0 -> sign x = 1 \/ sign x = -1.
Proof.
  intros Hx. destruct (sign_cases x) as [[_ E] | [[_ E] | [E _]]]; auto.
  contradiction.
Qed.

Lemma col_sign_unit (U : mat) (j : nat) :
  (j < ncols U)%nat ->
  (exists i, (i < nrows U)%nat /\ get U i j <> 0) ->
  col_sign U j = 1 \/ col_sign U j = -1.
Proof.
  intros Hj Hex. unfold col_sign. rewrite abs_col by exact Hj.
  apply sign_unit.
  apply (max_abs_entry_nonzero (fun i => get U i j) (nrows U) Hex).
Qed.

Lemma row_sign_unit (V : mat) (i : nat) :
  (i < nrows V)%nat ->
  (exists j, (j < ncols V)%nat /\ get V i j <> 0) ->
  row_sign V i = 1 \/ row_sign V i = -1.
Proof.
  intros Hi Hex. unfold row_sign. rewrite abs_row by exact Hi.
  apply sign_unit.
  apply (max_abs_entry_nonzero (fun j => get V i j) (ncols V) Hex).
Qed.

Lemma pad_sign_unit (n : nat) (s : nat -> R) :
  (forall j, (j < n)%nat -> s j = 1 \/ s j = -1) ->
  forall j, pad_sign n s j = 1 \/ pad_sign n s j = -1.
Proof.
  intros H j. unfold pad_sign. destruct (Nat.ltb_spec j n); auto.
Qed.

Lemma pad_sign_beyond (n : nat) (s : nat -> R) (j : nat) :
  (n <= j)%nat -> pad_sign n s j = 1.
Proof. intros H. unfold pad_sign. destruct (Nat.ltb_spec j n); [lia | auto]. Qed.

Lemma pad_sign_below (n : nat) (s : nat -> R) (j : nat) :
  (j < n)%nat -> pad_sign n s j = s j.
Proof. intros H. unfold pad_sign. destruct (Nat.ltb_spec j n); [auto | lia]. Qed.

(** C5, as the code has it.  When no deciding column of U (row of V, in
    the V-based mode) is entirely zero, [svd_flip] returns matrices of
    the same shapes whose entries are those of U and V with column j of U
    and row j of V multiplied by the same factor s(j), which is +1 or -1.
    The factor is +1 for each j past the components of the deciding
    matrix, so the extra components of the other matrix come back
    unchanged; the extra components of the deciding matrix itself get
    their own sign. *)
Theorem svd_flip_sign_factors (U V : mat) (u_based_decision : bool)
    (U' V' : mat) :
  svd_flip U V u_based_decision = Ok (U', V') ->
  deciding_nonzero U V u_based_decision ->
  exists s : nat -> R,
    (forall j, s j = 1 \/ s j = -1) /\
    (forall j, (deciding_count U V u_based_decision <= j)%nat -> s j = 1) /\
    mshape U' = mshape U /\ mshape V' = mshape V /\
    (forall i j, (i < nrows U)%nat -> (j < ncols U)%nat ->
       get U' i j = get U i j * s j) /\
    (forall i j, (i < nrows V)%nat -> (j < ncols V)%nat ->
       get V' i j = get V i j * s i).
Proof.
  destruct u_based_decision; intros H Hnz; simpl in Hnz.
  - pose proof (svd_flip_u_based_err U V _ H) as Hr.
    rewrite svd_flip_u_based in H by exact Hr.
    injection H as HU HV. subst U' V'.
    exists (pad_sign (ncols U) (col_sign U)).
    split; [apply pad_sign_unit; intros j Hj; apply col_sign_unit; auto |].
    split; [intros j Hj; apply pad_sign_beyond; exact Hj |].
    split; [reflexivity |]. split; [reflexivity |]. split.
    + intros i j Hi Hj. rewrite get_tabulate2 by auto.
      rewrite pad_sign_below by exact Hj. reflexivity.
    + intros i j Hi Hj. rewrite get_tabulate2 by auto. reflexivity.
  - pose proof (svd_flip_v_based_err U V _ H) as Hc.
    rewrite svd_flip_v_based in H by exact Hc.
    injection H as HU HV. subst U' V'.
    exists (pad_sign (nrows V) (row_sign V)).
    split; [apply pad_sign_unit; intros j Hj; apply row_sign_unit; auto |].
    split; [intros j Hj; apply pad_sign_beyond; exact Hj |].
    split; [reflexivity |]. split; [reflexivity |]. split.
    + intros i j Hi Hj. rewrite get_tabulate2 by auto. reflexivity.
    + intros i j Hi Hj. rewrite get_tabulate2 by auto.
      rewrite pad_sign_below by exact Hi. reflexivity.
Qed.

Lemma U1_deciding_nonzero : deciding_nonzero U1 V1 true.
Proof.
  intros j Hj. exists 0%nat. split; [simpl; lia |].
  simpl in Hj. destruct j as [| [| j]]; [| | lia]; unfold get; simpl; lra.
Qed.

Lemma svd_flip_sign_factors_witness :
  exists s : nat -> R,
    (forall j, s j = 1 \/ s j = -1) /\
    (forall j, (deciding_count U1 V1 true <= j)%nat -> s j = 1) /\
    mshape U1_flipped = mshape U1 /\ mshape V1_flipped = mshape V1 /\
    (forall i j, (i < nrows U1)%nat -> (j < ncols U1)%nat ->
       get U1_flipped i j = get U1 i j * s j) /\
    (forall i j, (i < nrows V1)%nat -> (j < ncols V1)%nat ->
       get V1_flipped i j = get V1 i j * s i).
Proof.
  exact (svd_flip_sign_factors U1 V1 true U1_flipped V1_flipped
           svd_flip_U1_V1 U1_deciding_nonzero).
Defined.

(** C5 as stated fails twice.  A deciding column that is entirely zero
    has sign 0, so the matching row of V is multiplied by 0: the entry 5
    comes back as 0.  And in the U-based mode a U with more columns than
    V has rows has its extra column flipped like the others: the entry
    -1 of the second column comes back as 1. *)
Lemma svd_flip_counterexample :
  svd_flip (mkMatrix 1 1 [[0]]) (mkMatrix 1 1 [[5]]) true
    = Ok (mkMatrix 1 1 [[0]], mkMatrix 1 1 [[0]]) /\
  svd_flip (mkMatrix 1 2 [[1; -1]]) (mkMatrix 1 1 [[1]]) true
    = Ok (mkMatrix 1 2 [[1; 1]], mkMatrix 1 1 [[1]]).
Proof.
  split; R_eval; repeat f_equal; lra.
Qed.

(* ------------------------------------------------------------------ *)
(** ** [make_svd_non_negative] *)

Lemma get_tabulate2_outside (r c : nat) (f : nat -> nat -> R) (i j : nat) :
  (r <= i)%nat \/ (c <= j)%nat -> get (tabulate2 r c f) i j = 0.
Proof.
  intros H. unfold get, tabulate2; simpl.
  destruct (Nat.lt_ge_cases i r) as [Hi | Hi].
  - rewrite nth_map_seq by exact Hi.
    apply nth_overflow. rewrite length_map, length_seq. lia.
  - rewrite (nth_overflow _ []) by (rewrite length_map, length_seq; lia).
    destruct j; reflexivity.
Qed.

Lemma get_tabulate2_nonneg (r c : nat) (f : nat -> nat -> R) :
  (forall i j, (i < r)%nat -> (j < c)%nat -> 0 <= f i j) ->
  forall i j, 0 <= get (tabulate2 r c f) i j.
Proof.
  intros H i j.
  destruct (Nat.lt_ge_cases i r) as [Hi | Hi];
    [destruct (Nat.lt_ge_cases j c) as [Hj | Hj] |].
  - rewrite get_tabulate2 by auto. auto.
  - rewrite get_tabulate2_outside by auto. lra.
  - rewrite get_tabulate2_outside by auto. lra.
Qed.

Lemma nth_nonneg (v : vector) (i : nat) : all_nonneg v -> 0 <= nth i v 0.
Proof.
  intros H. destruct (nth_in_or_default i v 0) as [Hin | ->]; [auto | lra].
Qed.

Lemma norm_nonneg (v : vector) : 0 <= norm v.
Proof. apply sqrt_pos. Qed.

Lemma all_nonneg_scaled_unit (lbd nrm : R) (x : vector) :
  0 <= lbd -> 0 < nrm -> all_nonneg x -> all_nonneg (vscale lbd (vdiv x nrm)).
Proof.
  intros Hl Hn Hx y Hy. unfold vscale, vdiv in Hy.
  apply in_map_iff in Hy as (z & <- & Hz).
  apply in_map_iff in Hz as (a & <- & Ha).
  apply Rmult_le_pos; [exact Hl |].
  apply Rmult_le_pos; [apply Hx, Ha |].
  apply Rlt_le, Rinv_0_lt_compat, Hn.
Qed.

Lemma all_nonneg_clip_min (v : vector) : all_nonneg (map (clip_min 0) v).
Proof. intros y Hy. apply in_map_iff in Hy as (z & <- & _). apply clip_min_ge. Qed.

Lemma all_nonneg_abs (v : vector) : all_nonneg (map Rabs v).
Proof. intros y Hy. apply in_map_iff in Hy as (z & <- & _). apply Rabs_pos. Qed.

Lemma vindex_ok (v : vector) (i : nat) :
  (i < length v)%nat -> vindex v i = Ok (nth i v 0).
Proof.
  intros Hi. unfold vindex. rewrite (nth_error_nth' v 0 Hi). reflexivity.
Qed.

(** One round of the loop, for a component within the bounds of U, S
    and V: it writes one column of W and one row of H, and the column is
    non-negative when its normalisation is defined. *)
Lemma nndsvd_step_ok (U : mat) (Sv : vector) (V : mat) (j : nat) (W H : mat) :
  (j < ncols U)%nat -> (j < nrows V)%nat -> (j < length Sv)%nat ->
  exists w h,
    nndsvd_step U Sv V j (W, H) = Ok (update_col W j w, update_row H j h) /\
    (0 < Rmax (pos_energy U V j) (neg_energy U V j) -> all_nonneg w).
Proof.
  intros HjU HjV HjS. unfold nndsvd_step, column_at, row_at.
  rewrite (proj2 (Nat.ltb_lt _ _) HjU), (proj2 (Nat.ltb_lt _ _) HjV).
  cbn [rbind]. rewrite (vindex_ok Sv j HjS).
  unfold pos_energy, neg_energy.
  set (x_p := map (clip_min 0) (col U j)).
  set (y_p := map (clip_min 0) (row V j)).
  set (x_n := map Rabs (map (clip_max 0) (col U j))).
  set (y_n := map Rabs (map (clip_max 0) (row V j))).
  pose proof (norm_nonneg x_p). pose proof (norm_nonneg y_p).
  pose proof (norm_nonneg x_n). pose proof (norm_nonneg y_n).
  destruct (Rltb (norm x_n * norm y_n) (norm x_p * norm y_p)) eqn:Hc;
    cbn [rbind]; eexists _, _; (split; [reflexivity |]); intros Hmax.
  - apply Rltb_true in Hc.
    apply all_nonneg_scaled_unit;
      [apply sqrt_pos | nra | apply all_nonneg_clip_min].
  - apply Rltb_false in Hc. rewrite Rmax_right in Hmax by exact Hc.
    apply all_nonneg_scaled_unit;
      [apply sqrt_pos | nra | apply all_nonneg_abs].
Qed.

(** What the loop keeps true of W: its shape, and the sign of its
    entries. *)
Lemma nndsvd_loop_ok (U : mat) (Sv : vector) (V : mat) (l : list nat) :
  (forall j, In j l ->
     (j < ncols U)%nat /\ (j < nrows V)%nat /\ (j < length Sv)%nat) ->
  forall W H, exists W' H',
    for_each l (nndsvd_step U Sv V) (W, H) = Ok (W', H') /\
    mshape W' = mshape W /\
    ((forall j, In j l -> 0 < Rmax (pos_energy U V j) (neg_energy U V j)) ->
     (forall i j, 0 <= get W i j) -> forall i j, 0 <= get W' i j).
Proof.
  induction l as [| j l IH]; intros Hl W H.
  - exists W, H. simpl. auto.
  - destruct (Hl j (or_introl eq_refl)) as (HjU & HjV & HjS).
    destruct (nndsvd_step_ok U Sv V j W H HjU HjV HjS) as (w & h & Hstep & Hw).
    destruct (IH (fun j' Hj' => Hl j' (or_intror Hj'))
                 (update_col W j w) (update_row H j h))
      as (W' & H' & Hloop & Hshape & Hpos).
    exists W', H'. cbn [for_each]. rewrite Hstep. cbn [rbind].
    split; [exact Hloop |]. split; [exact Hshape |].
    intros Hdef HW. apply Hpos; [intros; apply Hdef; right; assumption |].
    apply get_tabulate2_nonneg. intros i j' _ _.
    destruct (j' =? j)%nat; [| apply HW].
    apply nth_nonneg, Hw, Hdef. left. reflexivity.
Qed.

(** The run of [make_svd_non_negative] up to the choice of the fill. *)
Lemma make_svd_non_negative_unfold `{Bt : Builtins} (t : tensor)
    (U : mat) (Sv : vector) (V : mat) (nntype : string) :
  indexable_triplet U Sv V ->
  exists W,
    mshape W = mshape U /\
    (all_nonneg Sv -> normalisations_defined U V ->
     forall i j, 0 <= get W i j) /\
    make_svd_non_negative t U Sv V nntype =
    (if (nntype =? "nndsvd")%string then
       Ok (soft_thresholding W (eps (tdtype t)))
     else if (nntype =? "nndsvda")%string then
       Ok (where_lt W (eps (tdtype t)) (mean t))
     else Err (ValueError (nntype_message nntype))).
Proof.
  intros (Hk & HS & HV). unfold make_svd_non_negative.
  rewrite (vindex_ok Sv 0) by lia. unfold column_at, row_at.
  rewrite (proj2 (Nat.ltb_lt 0 (ncols U))) by lia.
  rewrite (proj2 (Nat.ltb_lt 0 (nrows V))) by lia.
  cbn [rbind].
  set (W0 := update_col (zeros_like U) 0 _).
  set (H0 := update_row (zeros_like V) 0 _).
  destruct (nndsvd_loop_ok U Sv V (seq 1 (ncols U - 1))) with (W := W0) (H := H0)
    as (W & H & Hloop & Hshape & Hpos).
  { intros j Hj. apply in_seq in Hj. lia. }
  rewrite Hloop. cbn [rbind].
  exists W. split; [rewrite Hshape; reflexivity |]. split; [| reflexivity].
  intros Hnn Hdef. apply Hpos.
  - intros j Hj. apply in_seq in Hj. apply Hdef. lia.
  - unfold W0. apply get_tabulate2_nonneg. intros i j _ _.
    destruct (j =? 0)%nat.
    + apply nth_nonneg. intros y Hy. unfold vscale in Hy.
      apply in_map_iff in Hy as (z & <- & Hz).
      apply Rmult_le_pos; [apply sqrt_pos | apply (all_nonneg_abs _ _ Hz)].
    + unfold zeros_like. apply get_tabulate2_nonneg. intros; lra.
Qed.

Lemma sign_nonneg (x : R) : 0 <= x -> 0 <= sign x.
Proof.
  intros Hx. destruct (sign_cases x) as [[_ E] | [[H _] | [_ E]]];
    try rewrite E; lra.
Qed.

(** C6, as the code has it.  For a triplet whose S is non-negative and
    whose normalisations are defined, [make_svd_non_negative] returns a
    matrix W of the shape of U with all entries >= 0 under 'nndsvd', and
    under 'nndsvda' when the mean of the input tensor is >= 0. *)
Theorem make_svd_non_negative_entries_nonneg `{Bt : Builtins} (t : tensor)
    (U : mat) (Sv : vector) (V : mat) (nntype : string) :
  indexable_triplet U Sv V ->
  all_nonneg Sv ->
  normalisations_defined U V ->
  nntype = "nndsvd"%string \/ (nntype = "nndsvda"%string /\ 0 <= mean t) ->
  exists W,
    make_svd_non_negative t U Sv V nntype = Ok W /\
    mshape W = mshape U /\
    forall i j, 0 <= get W i j.
Proof.
  intros Hidx Hnn Hdef Hfill.
  destruct (make_svd_non_negative_unfold t U Sv V nntype Hidx)
    as (W & Hshape & Hpos & Hrun).
  specialize (Hpos Hnn Hdef). rewrite Hrun.
  pose proof (eps_pos (tdtype t)) as He.
  destruct Hfill as [-> | [-> Hmean]].
  - eexists. split; [reflexivity |]. split; [exact Hshape |].
    unfold soft_thresholding, mmap. apply get_tabulate2_nonneg. intros i j _ _.
    apply Rmult_le_pos; [apply sign_nonneg, Hpos | apply clip_min_ge].
  - eexists. split; [reflexivity |]. split; [exact Hshape |].
    unfold where_lt, mmap. apply get_tabulate2_nonneg. intros i j _ _.
    destruct (Rltb (get W i j) (eps (tdtype t))); [exact Hmean | apply Hpos].
Qed.

Lemma T7_triplet_facts :
  indexable_triplet U7 S7 V7 /\ all_nonneg S7 /\ normalisations_defined U7 V7 /\
  0 <= mean T7.
Proof.
  split; [unfold indexable_triplet; simpl; lia |].
  split; [intros x [<- | [<- | []]]; lra |].
  split.
  - intros j Hj. simpl in Hj. assert (j = 1%nat) as -> by lia.
    assert (E : pos_energy U7 V7 1 = 1) by (R_eval; lra).
    eapply Rlt_le_trans; [| apply Rmax_l]. rewrite E. lra.
  - unfold mean. simpl. lra.
Qed.

Lemma make_svd_non_negative_entries_nonneg_witness :
  exists W,
    make_svd_non_negative T7 U7 S7 V7 "nndsvda" = Ok W /\
    mshape W = mshape U7 /\
    forall i j, 0 <= get W i j.
Proof.
  destruct T7_triplet_facts as (Hidx & Hnn & Hdef & Hmean).
  exact (make_svd_non_negative_entries_nonneg (Bt := plain_repr)
           T7 U7 S7 V7 "nndsvda" Hidx Hnn Hdef
           (or_intror (Logic.conj eq_refl Hmean))).
Defined.

(** C6 as stated fails under 'nndsvda': the matrix [[-1, 0], [0, 0]]
    has the mean -1/4, its SVD leaves three entries of W below epsilon,
    and they are filled with that negative mean. *)
Lemma make_svd_non_negative_negative_mean_counterexample :
  dot (mul_cols U6 S6) V6 = as_matrix T6 /\
  make_svd_non_negative T6 U6 S6 V6 "nndsvda" = Ok W6 /\
  get W6 0 1 < 0.
Proof.
  split; [| split].
  - R_eval. repeat f_equal; lra.
  - R_eval. repeat f_equal; lra.
  - unfold get; simpl. lra.
Qed.

(** C7, as the code has it.  [svd_funs] raises a [ValueError] for every
    [svd_type] outside SVD_FUNS, before anything else happens.
    [make_svd_non_negative] raises a [ValueError] for every [nntype]
    other than 'nndsvd' and 'nndsvda' when it is given a triplet it can
    index: the test of [nntype] comes after the loop, and on any other
    triplet the [IndexError] of the indexing comes first.  Each message
    holds the offending value ([svd_type] as it is, [nntype] through
    [repr]) and the list of the valid choices. *)
Theorem invalid_selectors_raise_value_error `{B : Backend} `{Bt : Builtins}
    (t : tensor) (svd_type : string) (n_eigenvecs : option Z)
    (flip_svd non_negative : bool) (nntype : string)
    (u_based_decision : bool) (kw : kwargs)
    (U : mat) (Sv : vector) (V : mat) (bad_nntype : string) :
  ~ In svd_type SVD_FUNS ->
  indexable_triplet U Sv V ->
  bad_nntype <> "nndsvd"%string -> bad_nntype <> "nndsvda"%string ->
  svd_funs t svd_type n_eigenvecs flip_svd non_negative nntype
           u_based_decision kw
  = ([], Err (ValueError
        ("Got svd=" ++ svd_type ++ ". However, the possible choices are "
         ++ str_list SVD_FUNS)%string)) /\
  make_svd_non_negative t U Sv V bad_nntype
  = Err (ValueError
      ("Invalid nntype parameter: got " ++ repr bad_nntype
       ++ " instead of one of " ++ repr_tuple ["nndsvd"; "nndsvda"])%string).
Proof.
  intros Hsvd Hidx Hn1 Hn2. split.
  - unfold svd_funs.
    assert (Hneq : forall name, In name SVD_FUNS -> (svd_type =? name)%string = false).
    { intros name Hin. apply String.eqb_neq. intros ->. contradiction. }
    rewrite !Hneq by (simpl; auto). reflexivity.
  - destruct (make_svd_non_negative_unfold t U Sv V bad_nntype Hidx)
      as (W & _ & _ & Hrun).
    rewrite Hrun.
    rewrite (proj2 (String.eqb_neq _ _) Hn1), (proj2 (String.eqb_neq _ _) Hn2).
    reflexivity.
Qed.

Lemma invalid_selectors_raise_value_error_witness :
  svd_funs T7 "full_svd" None true false "nndsvd" true default_kwargs
  = ([], Err (ValueError
        ("Got svd=" ++ "full_svd" ++ ". However, the possible choices are "
         ++ str_list SVD_FUNS)%string)) /\
  make_svd_non_negative T7 U7 S7 V7 "nndsvdar"
  = Err (ValueError
      ("Invalid nntype parameter: got " ++ repr "nndsvdar"
       ++ " instead of one of " ++ repr_tuple ["nndsvd"; "nndsvda"])%string).
Proof.
  apply (invalid_selectors_raise_value_error (B := zero_exact_backend)
           (Bt := plain_repr) T7 "full_svd" None true false "nndsvd" true
           default_kwargs U7 S7 V7 "nndsvdar").
  - simpl. intros [H | [H | [H | [H | []]]]]; discriminate H.
  - unfold indexable_triplet; simpl; lia.
  - discriminate.
  - discriminate.
Defined.

(* ================================================================== *)
(** * Further properties of the module *)

(* ------------------------------------------------------------------ *)
(** ** [svd_flip]: when it returns, and what it keeps *)

(** X1. [svd_flip] raises the [ValueError] of the empty argmax exactly
    when the matrix that decides the signs has no entry along the
    reduced axis (U without rows, or V without columns in the V-based
    mode); in every other case it returns, and both matrices keep their
    shapes. *)
Theorem svd_flip_returns_same_shapes (U V : mat) (u_based_decision : bool) :
  match svd_flip U V u_based_decision with
  | Ok (U', V') =>
      deciding_axis_empty U V u_based_decision = false /\
      mshape U' = mshape U /\ mshape V' = mshape V
  | Err e =>
      deciding_axis_empty U V u_based_decision = true /\
      e = ValueError "attempt to get argmax of an empty sequence"
  end.
Proof.
  destruct u_based_decision; unfold deciding_axis_empty.
  - destruct (Nat.eqb_spec (nrows U) 0) as [Hz | Hnz].
    + unfold svd_flip, argmax_axis0. simpl. rewrite Hz. simpl. auto.
    + rewrite svd_flip_u_based by exact Hnz. auto.
  - destruct (Nat.eqb_spec (ncols V) 0) as [Hz | Hnz].
    + unfold svd_flip, argmax_axis1. simpl. rewrite Hz. simpl. auto.
    + rewrite svd_flip_v_based by exact Hnz. auto.
Qed.

Lemma abs_le_max_abs (f : nat -> R) (n i : nat) :
  (i < n)%nat ->
  let l := map (fun i => Rabs (f i)) (seq 0 n) in
  (argmax_idx l < n)%nat /\ Rabs (f i) <= Rabs (f (argmax_idx l)).
Proof.
  intros Hi l.
  assert (Hne : l <> []) by (unfold l; destruct n; [lia | discriminate]).
  pose proof (argmax_idx_lt l Hne) as Ha.
  unfold l in Ha at 2. rewrite length_map, length_seq in Ha.
  split; [exact Ha |].
  assert (Hin : In (Rabs (f i)) l).
  { unfold l. apply in_map_iff. exists i. split; [reflexivity |].
    apply in_seq. lia. }
  pose proof (argmax_idx_max l _ Hin) as Hmax.
  unfold l in Hmax at 2. rewrite nth_map_seq in Hmax by exact Ha.
  exact Hmax.
Qed.

Lemma abs_mul_sign_le (x y : R) : Rabs (x * sign y) <= Rabs x.
Proof.
  rewrite Rabs_mult. pose proof (Rabs_pos x).
  destruct (sign_cases y) as [[_ E] | [[_ E] | [_ E]]]; rewrite E.
  - rewrite Rabs_R1. lra.
  - replace (Rabs (-1)) with 1; [lra |].
    unfold Rabs; destruct (Rcase_abs (-1)); lra.
  - rewrite Rabs_R0. lra.
Qed.

Lemma mul_own_sign (x : R) : x * sign x = Rabs x.
Proof.
  destruct (sign_cases x) as [[H E] | [[H E] | [H E]]]; rewrite E.
  - rewrite Rabs_right by lra. lra.
  - rewrite Rabs_left by lra. lra.
  - rewrite H, Rabs_R0. lra.
Qed.

(** X2. After [svd_flip], the entry of largest magnitude of every
    deciding column of U (row of V in the V-based mode) is not negative:
    the column holds an entry that is at least the magnitude of each of
    its entries. *)
Theorem svd_flip_largest_entry_nonneg (U V : mat) (u_based_decision : bool)
    (U' V' : mat) :
  svd_flip U V u_based_decision = Ok (U', V') ->
  if u_based_decision then
    forall j, (j < ncols U')%nat ->
      exists a, (a < nrows U')%nat /\
        forall i, (i < nrows U')%nat -> Rabs (get U' i j) <= get U' a j
  else
    forall i, (i < nrows V')%nat ->
      exists a, (a < ncols V')%nat /\
        forall j, (j < ncols V')%nat -> Rabs (get V' i j) <= get V' i a.
Proof.
  destruct u_based_decision; intros H.
  - pose proof (svd_flip_u_based_err U V _ H) as Hr.
    rewrite svd_flip_u_based in H by exact Hr.
    injection H as HU HV. subst U' V'. simpl nrows; simpl ncols.
    intros j Hj. assert (H0 : (0 < nrows U)%nat) by lia.
    destruct (abs_le_max_abs (fun i => get U i j) (nrows U) 0 H0) as [Ha _].
    exists (argmax_idx (map (fun i => Rabs (get U i j)) (seq 0 (nrows U)))).
    split; [exact Ha |]. intros i Hi.
    rewrite !get_tabulate2 by auto.
    unfold col_sign. rewrite abs_col by exact Hj.
    rewrite mul_own_sign.
    eapply Rle_trans; [apply abs_mul_sign_le |].
    apply (abs_le_max_abs (fun i => get U i j) (nrows U) i Hi).
  - pose proof (svd_flip_v_based_err U V _ H) as Hc.
    rewrite svd_flip_v_based in H by exact Hc.
    injection H as HU HV. subst U' V'. simpl nrows; simpl ncols.
    intros i Hi. assert (H0 : (0 < ncols V)%nat) by lia.
    destruct (abs_le_max_abs (fun j => get V i j) (ncols V) 0 H0) as [Ha _].
    exists (argmax_idx (map (fun j => Rabs (get V i j)) (seq 0 (ncols V)))).
    split; [exact Ha |]. intros j Hj.
    rewrite !get_tabulate2 by auto.
    unfold row_sign. rewrite abs_row by exact Hi.
    rewrite mul_own_sign.
    eapply Rle_trans; [apply abs_mul_sign_le |].
    apply (abs_le_max_abs (fun j => get V i j) (ncols V) j Hj).
Qed.

Lemma svd_flip_largest_entry_nonneg_witness :
  svd_flip U1 V1 true = Ok (U1_flipped, V1_flipped) /\
  forall j, (j < ncols U1_flipped)%nat ->
    exists a, (a < nrows U1_flipped)%nat /\
      forall i, (i < nrows U1_flipped)%nat ->
        Rabs (get U1_flipped i j) <= get U1_flipped a j.
Proof.
  split; [exact svd_flip_U1_V1 |].
  exact (svd_flip_largest_entry_nonneg U1 V1 true U1_flipped V1_flipped
           svd_flip_U1_V1).
Defined.

Lemma col_sign_zero_column (U : mat) (j i : nat) :
  (j < ncols U)%nat -> (i < nrows U)%nat ->
  col_sign U j = 0 -> get U i j = 0.
Proof.
  intros Hj Hi Hz. unfold col_sign in Hz. rewrite abs_col in Hz by exact Hj.
  destruct (abs_le_max_abs (fun i => get U i j) (nrows U) i Hi) as [_ Hle].
  set (x := get U (argmax_idx (map (fun i => Rabs (get U i j)) (seq 0 (nrows U)))) j) in *.
  destruct (sign_cases x) as [[_ E] | [[_ E] | [E _]]]; try lra.
  rewrite E, Rabs_R0 in Hle. pose proof (Rabs_pos (get U i j)).
  destruct (Req_dec (get U i j) 0) as [H0 | Hn]; [exact H0 |].
  pose proof (Rabs_pos_lt _ Hn). lra.
Qed.

Lemma row_sign_zero_row (V : mat) (i j : nat) :
  (i < nrows V)%nat -> (j < ncols V)%nat ->
  row_sign V i = 0 -> get V i j = 0.
Proof.
  intros Hi Hj Hz. unfold row_sign in Hz. rewrite abs_row in Hz by exact Hi.
  destruct (abs_le_max_abs (fun j => get V i j) (ncols V) j Hj) as [_ Hle].
  set (x := get V i (argmax_idx (map (fun j => Rabs (get V i j)) (seq 0 (ncols V))))) in *.
  destruct (sign_cases x) as [[_ E] | [[_ E] | [E _]]]; try lra.
  rewrite E, Rabs_R0 in Hle. pose proof (Rabs_pos (get V i j)).
  destruct (Req_dec (get V i j) 0) as [H0 | Hn]; [exact H0 |].
  pose proof (Rabs_pos_lt _ Hn). lra.
Qed.

Lemma sign_square (x : R) : sign x * sign x = 1 \/ sign x = 0.
Proof.
  destruct (sign_cases x) as [[_ E] | [[_ E] | [_ E]]]; rewrite E;
    [left | left | right]; lra.
Qed.

Lemma vsum_map_ext (f g : nat -> R) (l : list nat) :
  (forall k, In k l -> f k = g k) -> vsum (map f l) = vsum (map g l).
Proof. intros H. f_equal. apply map_ext_in. exact H. Qed.

(** X3. [svd_flip] does not change the matrix that the triplet stands
    for: when U has as many columns as V has rows, U' diag(S) V' is
    U diag(S) V, entry by entry, for every S.  A component whose sign is
    0 is no exception: its deciding column (row) is entirely zero. *)
Theorem svd_flip_preserves_reconstruction (U V : mat)
    (u_based_decision : bool) (U' V' : mat) (Sv : vector) :
  svd_flip U V u_based_decision = Ok (U', V') ->
  ncols U = nrows V ->
  reconstruct U' Sv V' = reconstruct U Sv V.
Proof.
  intros H Hinner. unfold reconstruct, dot, mul_cols.
  destruct u_based_decision.
  - pose proof (svd_flip_u_based_err U V _ H) as Hr.
    rewrite svd_flip_u_based in H by exact Hr.
    injection H as HU HV. subst U' V'. simpl nrows; simpl ncols.
    apply tabulate2_ext. intros i c Hi Hc.
    apply vsum_map_ext. intros k Hk. apply in_seq in Hk.
    rewrite !get_tabulate2 by lia.
    unfold pad_sign. destruct (Nat.ltb_spec k (ncols U)) as [_ | ?]; [| lia].
    destruct (sign_square (get U (argmax_idx (col (mabs U) k)) k)) as [E | E];
      fold (col_sign U k) in E.
    + transitivity (get U i k * nth k Sv 0 * get V k c
                    * (col_sign U k * col_sign U k)); [ring | rewrite E; ring].
    + rewrite (col_sign_zero_column U k i) by (auto; lia). ring.
  - pose proof (svd_flip_v_based_err U V _ H) as Hcv.
    rewrite svd_flip_v_based in H by exact Hcv.
    injection H as HU HV. subst U' V'. simpl nrows; simpl ncols.
    apply tabulate2_ext. intros i c Hi Hc.
    apply vsum_map_ext. intros k Hk. apply in_seq in Hk.
    rewrite !get_tabulate2 by lia.
    unfold pad_sign. destruct (Nat.ltb_spec k (nrows V)) as [_ | ?]; [| lia].
    destruct (sign_square (get V k (argmax_idx (row (mabs V) k)))) as [E | E];
      fold (row_sign V k) in E.
    + transitivity (get U i k * nth k Sv 0 * get V k c
                    * (row_sign V k * row_sign V k)); [ring | rewrite E; ring].
    + rewrite (row_sign_zero_row V k c) by (auto; lia). ring.
Qed.

Lemma svd_flip_U1_V1_square :
  svd_flip U1 V1_square true = Ok (U1_flipped, V1_square_flipped).
Proof. R_eval. repeat f_equal; lra. Qed.

Lemma svd_flip_preserves_reconstruction_witness :
  svd_flip U1 V1_square true = Ok (U1_flipped, V1_square_flipped) /\
  reconstruct U1_flipped [3; 2] V1_square_flipped
  = reconstruct U1 [3; 2] V1_square.
Proof.
  split; [exact svd_flip_U1_V1_square |].
  exact (svd_flip_preserves_reconstruction U1 V1_square true
           U1_flipped V1_square_flipped [3; 2]
           svd_flip_U1_V1_square eq_refl).
Defined.

Lemma col_sign_transpose (V : mat) (j : nat) :
  ncols V <> 0%nat -> (j < nrows V)%nat ->
  col_sign (transpose V) j = row_sign V j.
Proof.
  intros Hc Hj. unfold col_sign, row_sign.
  assert (Habs : col (mabs (transpose V)) j = row (mabs V) j).
  { rewrite abs_col by (simpl; exact Hj). rewrite abs_row by exact Hj.
    simpl nrows. apply map_ext_in. intros i Hi. apply in_seq in Hi.
    unfold transpose. rewrite get_tabulate2 by lia. reflexivity. }
  rewrite Habs.
  pose proof (argmax_idx_lt (row (mabs V) j) (row_nonempty (mabs V) j Hc)) as Ha.
  unfold row at 2 in Ha. rewrite length_map, length_seq in Ha. simpl in Ha.
  unfold transpose. rewrite get_tabulate2 by auto. reflexivity.
Qed.

(** X4. The V-based mode is the U-based mode on the transposed pair:
    flipping (U, V) on the rows of V gives the transposes of what
    flipping (V^T, U^T) on the columns of V^T gives. *)
Theorem svd_flip_v_based_transposes_u_based (U V U' V' : mat) :
  svd_flip U V false = Ok (U', V') ->
  svd_flip (transpose V) (transpose U) true = Ok (transpose V', transpose U').
Proof.
  intros H. pose proof (svd_flip_v_based_err U V _ H) as Hc.
  rewrite svd_flip_v_based in H by exact Hc.
  injection H as HU HV. subst U' V'.
  rewrite svd_flip_u_based by (simpl; exact Hc).
  unfold transpose at 5 6. simpl nrows; simpl ncols.
  f_equal. f_equal.
  - apply tabulate2_ext. intros i j Hi Hj.
    rewrite get_tabulate2 by auto.
    rewrite col_sign_transpose by auto.
    unfold transpose. rewrite get_tabulate2 by auto. reflexivity.
  - apply tabulate2_ext. intros i j Hi Hj.
    rewrite get_tabulate2 by auto.
    unfold transpose at 1. rewrite get_tabulate2 by auto.
    f_equal. unfold pad_sign.
    destruct (Nat.ltb_spec i (nrows V)); [| reflexivity].
    apply col_sign_transpose; auto.
Qed.

Lemma svd_flip_U1_V1_v_based : svd_flip U1 V1 false = Ok (U1, V1).
Proof. R_eval. repeat f_equal; lra. Qed.

Lemma svd_flip_v_based_transposes_u_based_witness :
  svd_flip U1 V1 false = Ok (U1, V1) /\
  svd_flip (transpose V1) (transpose U1) true = Ok (transpose V1, transpose U1).
Proof.
  split; [exact svd_flip_U1_V1_v_based |].
  exact (svd_flip_v_based_transposes_u_based U1 V1 U1 V1 svd_flip_U1_V1_v_based).
Defined.

(* ------------------------------------------------------------------ *)
(** ** The dense strategies at every rank *)

Lemma runs_clamped_with {A : Type} (m clamped : M A) (w : string)
    (P : A -> Prop) :
  m = (Warn w :: trace clamped, outcome clamped) ->
  runs clamped [] P -> runs m [w] P.
Proof.
  intros -> (a & Ha & HW & HP). exists a. simpl.
  split; [exact Ha |]. split; [| exact HP].
  unfold trace, warnings_of in *. simpl. rewrite HW. reflexivity.
Qed.

(** The dense SVD followed by the three slices at [k >= 0]. *)
Lemma dense_svd_sliced `{B : Backend} `{!BackendSpec B} (A : mat) (m n : nat)
    (k : Z) (stop : option Z) (full : bool) :
  nrows A = m -> ncols A = n -> (0 <= k)%Z ->
  slice_stop stop m = Nat.min (Z.to_nat k) m ->
  slice_stop stop n = Nat.min (Z.to_nat k) n ->
  slice_stop stop (Nat.min m n) = Nat.min (Z.to_nat k) (Nat.min m n) ->
  (full = false -> (k <= Z.of_nat (Nat.min m n))%Z) ->
  runs ('(U, Sv, V) <- tl_svd A full ;;
        ret (slice_cols stop U, vslice stop Sv, slice_rows stop V)) []
       (sliced_triplet m n k).
Proof.
  intros HAr HAc Hk Hm Hn Hmn Hthin.
  eapply runs_bind_nil; [apply runs_tl_svd |].
  intros [[U Sv] V] Hr. apply runs_ret.
  pose proof (svd_values A full) as Hv. rewrite <- Hr in Hv.
  destruct Hv as [Hsort Hnn].
  unfold sliced_triplet.
  destruct full.
  - pose proof (svd_full_shape A) as Hs. rewrite <- Hr in Hs.
    destruct Hs as (HU & HS & HV).
    apply mshape_eq in HU as [HUr HUc]. apply mshape_eq in HV as [HVr HVc].
    split; [apply mshape_eq; simpl; rewrite HUc, HAr, Hm; lia |].
    split; [rewrite length_vslice, HS, HAr, HAc, Hmn; lia |].
    split; [apply sorted_descending_firstn, Hsort |].
    split; [apply all_nonneg_firstn, Hnn |].
    apply mshape_eq; simpl. rewrite HVr, HAc, Hn. lia.
  - specialize (Hthin eq_refl).
    pose proof (svd_thin_shape A) as Hs. rewrite <- Hr in Hs.
    destruct Hs as (HU & HS & HV).
    apply mshape_eq in HU as [HUr HUc]. apply mshape_eq in HV as [HVr HVc].
    split; [apply mshape_eq; simpl; rewrite HUc, HAr, HAc, Hmn; lia |].
    split; [rewrite length_vslice, HS, HAr, HAc, Hmn; lia |].
    split; [apply sorted_descending_firstn, Hsort |].
    split; [apply all_nonneg_firstn, Hnn |].
    apply mshape_eq; simpl. rewrite HVr, HAr, HAc, Hmn. lia.
Qed.

(** [truncated_svd] at every rank [k >= 0], given or defaulted. *)
Lemma truncated_svd_sliced `{B : Backend} `{!BackendSpec B}
    (t : tensor) (rows cols : nat) (n_eigenvecs : option Z) :
  shape t = [rows; cols] ->
  let max_dim := Nat.max rows cols in
  let k := requested_rank n_eigenvecs max_dim in
  (0 <= k)%Z ->
  runs (truncated_svd t n_eigenvecs)
       (if (Z.of_nat max_dim <? k)%Z then [rank_warning k max_dim] else [])
       (sliced_triplet rows cols k).
Proof.
  intros E max_dim k Hk.
  pose proof (mshape_as_matrix t rows cols E) as HA.
  apply mshape_eq in HA as [HAr HAc].
  assert (Hcore : forall k', (0 <= k' <= Z.of_nat max_dim)%Z ->
            runs (truncated_svd t (Some k')) [] (sliced_triplet rows cols k')).
  { intros k' Hk'. rewrite (truncated_svd_2d t rows cols (Some k') E).
    rewrite clamp_rank_in_range by (unfold max_dim in Hk'; lia).
    apply runs_bind_nil with (P := fun x => x = k'); [apply runs_ret; auto |].
    intros ? ->.
    apply dense_svd_sliced; auto; try lia;
      try (rewrite slice_stop_nonneg by lia; reflexivity).
    intros Hf. apply Z.ltb_ge in Hf. exact Hf. }
  assert (Hdefault : truncated_svd t n_eigenvecs = truncated_svd t (Some k)).
  { destruct n_eigenvecs; [reflexivity |].
    rewrite !(truncated_svd_2d t rows cols _ E). reflexivity. }
  rewrite Hdefault.
  destruct (Z.ltb_spec (Z.of_nat max_dim) k) as [Hgt | Hle].
  - eapply runs_clamped_with;
      [apply (truncated_svd_clamped t rows cols k E Hgt) |].
    eapply runs_weaken; [apply Hcore; unfold max_dim; lia |].
    intros [[U Sv] V]. unfold sliced_triplet, max_dim in *.
    replace (Z.to_nat (Z.of_nat (Nat.max rows cols))) with (Nat.max rows cols) by lia.
    intros (HU & HS & Hsort & Hnn & HV).
    rewrite HU, HS, HV.
    replace (Nat.min (Z.to_nat k) rows) with (Nat.min (Nat.max rows cols) rows) by lia.
    replace (Nat.min (Z.to_nat k) cols) with (Nat.min (Nat.max rows cols) cols) by lia.
    replace (Nat.min (Z.to_nat k) (Nat.min rows cols))
      with (Nat.min (Nat.max rows cols) (Nat.min rows cols)) by lia.
    auto.
  - apply Hcore. lia.
Qed.

(** X5. [truncated_svd] at every rank [k >= 0], given or defaulted to
    max(rows, cols): it returns, it warns exactly when [k] exceeds
    max(rows, cols), and U is rows x min(k, rows), S has
    min(k, rows, cols) entries, V is min(k, cols) x cols.  So above
    min(rows, cols) the three outputs no longer share one rank. *)
Theorem truncated_svd_shapes_at_every_rank `{B : Backend} `{!BackendSpec B}
    (t : tensor) (rows cols : nat) (n_eigenvecs : option Z) :
  shape t = [rows; cols] ->
  let max_dim := Nat.max rows cols in
  let k := requested_rank n_eigenvecs max_dim in
  (0 <= k)%Z ->
  runs (truncated_svd t n_eigenvecs)
       (if (Z.of_nat max_dim <? k)%Z then [rank_warning k max_dim] else [])
       (sliced_triplet rows cols k).
Proof. apply truncated_svd_sliced. Qed.

Lemma truncated_svd_shapes_at_every_rank_witness :
  let t := zeros_tensor 5 3 in
  runs (truncated_svd t None) [] (sliced_triplet 5 3 5) /\
  runs (truncated_svd t (Some 4%Z)) [] (sliced_triplet 5 3 4) /\
  runs (truncated_svd t (Some 9%Z)) [rank_warning 9 5] (sliced_triplet 5 3 9).
Proof.
  split; [| split].
  - apply (truncated_svd_shapes_at_every_rank (B := zero_exact_backend)
             (zeros_tensor 5 3) 5 3 None eq_refl). simpl. lia.
  - apply (truncated_svd_shapes_at_every_rank (B := zero_exact_backend)
             (zeros_tensor 5 3) 5 3 (Some 4%Z) eq_refl). simpl. lia.
  - apply (truncated_svd_shapes_at_every_rank (B := zero_exact_backend)
             (zeros_tensor 5 3) 5 3 (Some 9%Z) eq_refl). simpl. lia.
Defined.

(** X6. Between min(rows, cols) and max(rows, cols), [partial_svd] is
    [truncated_svd]: the same backend calls in the same order and the
    same outcome, preceded by the conversion notice when the input is
    not a NumPy array.  This holds for every backend. *)
Theorem partial_svd_dense_is_truncated_svd `{B : Backend}
    (t : tensor) (rows cols : nat) (k : Z) (rs : random_state) :
  shape t = [rows; cols] ->
  (Z.of_nat (Nat.min rows cols) <= k <= Z.of_nat (Nat.max rows cols))%Z ->
  partial_svd t (Some k) rs
  = (map Warn (conversion_notice t) ++ trace (truncated_svd t (Some k)),
     outcome (truncated_svd t (Some k))).
Proof.
  intros E Hk. rewrite (truncated_svd_2d t rows cols (Some k) E).
  rewrite clamp_rank_in_range by lia.
  unfold partial_svd. enter_2d E.
  rewrite (proj2 (Z.leb_le _ _)) by lia.
  unfold conversion_notice, tl_svd, bind, ret, warn, call, trace, outcome.
  destruct (is_ndarray t); simpl;
    destruct (backend_svd (as_matrix t) (Z.of_nat (Nat.min rows cols) <? k)%Z)
      as [[U Sv] V]; reflexivity.
Qed.

Lemma partial_svd_dense_is_truncated_svd_witness :
  let t := zeros_tensor 5 3 in
  partial_svd t (Some 4%Z) None
  = (map Warn (conversion_notice t) ++ trace (truncated_svd t (Some 4%Z)),
     outcome (truncated_svd t (Some 4%Z))).
Proof.
  apply (partial_svd_dense_is_truncated_svd (B := zero_exact_backend)
           (zeros_tensor 5 3) 5 3 4 None eq_refl).
  simpl. lia.
Defined.

(** [partial_svd] at every rank [k > 0]. *)
Lemma partial_svd_sliced `{B : Backend} `{!BackendSpec B}
    (t : tensor) (rows cols : nat) (k : Z) (rs : random_state) :
  shape t = [rows; cols] ->
  (0 < k)%Z ->
  runs (partial_svd t (Some k) rs) (conversion_notice t)
       (sliced_triplet rows cols k).
Proof.
  intros E Hk.
  destruct (Z.lt_ge_cases k (Z.of_nat (Nat.min rows cols))) as [Hlt | Hge].
  - eapply runs_weaken;
      [apply (partial_svd_sparse_runs t rows cols k rs E); lia |].
    intros [[U Sv] V] (HU & HS & Hsort & Hge & HV). unfold sliced_triplet.
    rewrite HU, HS, HV.
    replace (Nat.min (Z.to_nat k) rows) with (Z.to_nat k) by lia.
    replace (Nat.min (Z.to_nat k) cols) with (Z.to_nat k) by lia.
    replace (Nat.min (Z.to_nat k) (Nat.min rows cols)) with (Z.to_nat k) by lia.
    repeat split; auto.
    apply (all_nonneg_of_ge (eps (tdtype t))); [| exact Hge].
    apply Rlt_le, eps_pos.
  - pose proof (mshape_as_matrix t rows cols E) as HA.
    apply mshape_eq in HA as [HAr HAc].
    unfold partial_svd. enter_2d E.
    rewrite <- (app_nil_r (conversion_notice t)).
    eapply runs_bind; [apply runs_conversion_notice |]. intros _ _.
    rewrite (proj2 (Z.leb_le _ _)) by lia.
    apply dense_svd_sliced; auto; try lia;
      try (rewrite slice_stop_nonneg by lia; reflexivity).
    intros Hf. apply Z.ltb_ge in Hf. exact Hf.
Qed.

(** X7. [partial_svd] at every rank [k > 0]: it returns, its only
    possible warning is the conversion notice, and the shapes are those
    of [truncated_svd]: U is rows x min(k, rows), S has min(k, rows, cols)
    entries, non-negative and non-increasing, V is min(k, cols) x cols. *)
Theorem partial_svd_shapes_at_every_rank `{B : Backend} `{!BackendSpec B}
    (t : tensor) (rows cols : nat) (k : Z) (rs : random_state) :
  shape t = [rows; cols] ->
  (0 < k)%Z ->
  runs (partial_svd t (Some k) rs) (conversion_notice t)
       (sliced_triplet rows cols k).
Proof. apply partial_svd_sliced. Qed.

Lemma partial_svd_shapes_at_every_rank_witness :
  let t := zeros_tensor 5 3 in
  runs (partial_svd t (Some 2%Z) None) (conversion_notice t)
       (sliced_triplet 5 3 2) /\
  runs (partial_svd t (Some 9%Z) None) (conversion_notice t)
       (sliced_triplet 5 3 9).
Proof.
  split.
  - apply (partial_svd_shapes_at_every_rank (B := zero_exact_backend)
             (zeros_tensor 5 3) 5 3 2 None eq_refl). lia.
  - apply (partial_svd_shapes_at_every_rank (B := zero_exact_backend)
             (zeros_tensor 5 3) 5 3 9 None eq_refl). lia.
Defined.

(** X8. A rank [k <= 0] on a matrix with no empty dimension sends
    [partial_svd] to its sparse branch, where the eigensolver refuses it:
    the call raises a [ValueError] after the starting vector was drawn
    and the Gram matrix was multiplied out.  This holds for every
    backend. *)
Theorem partial_svd_rejects_nonpositive_rank `{B : Backend}
    (t : tensor) (rows cols : nat) (k : Z) (rs : random_state) :
  shape t = [rows; cols] ->
  (k <= 0)%Z -> (0 < Nat.min rows cols)%nat ->
  partial_svd t (Some k) rs
  = (map Warn (conversion_notice t) ++ [Call P_uniform; Call P_dot],
     Err (ValueError "k must be greater than 0.")).
Proof.
  intros E Hk Hmin.
  pose proof (mshape_as_matrix t rows cols E) as HA.
  apply mshape_eq in HA as [HAr HAc].
  unfold partial_svd. enter_2d E.
  set (A := as_matrix t) in *. clearbody A.
  rewrite (proj2 (Z.leb_gt _ _)) by lia.
  assert (Hd1 : tl_dot A (conj (transpose A))
                = ([Call P_dot], Ok (dot A (conj (transpose A))))).
  { unfold tl_dot. simpl. rewrite Nat.eqb_refl. reflexivity. }
  assert (Hd2 : tl_dot (conj (transpose A)) A
                = ([Call P_dot], Ok (dot (conj (transpose A)) A))).
  { unfold tl_dot. simpl. rewrite Nat.eqb_refl. reflexivity. }
  rewrite Hd1, Hd2.
  unfold eigsh. rewrite (proj2 (Z.leb_le k 0) Hk).
  unfold conversion_notice, rng_uniform, bind, ret, warn, call, raise.
  destruct (is_ndarray t); destruct (rows <? cols)%nat; reflexivity.
Qed.

Lemma partial_svd_rejects_nonpositive_rank_witness :
  let t := zeros_tensor 5 3 in
  partial_svd t (Some 0%Z) None
  = (map Warn (conversion_notice t) ++ [Call P_uniform; Call P_dot],
     Err (ValueError "k must be greater than 0.")).
Proof.
  apply (partial_svd_rejects_nonpositive_rank (B := zero_exact_backend)
           (zeros_tensor 5 3) 5 3 0 None eq_refl); simpl; lia.
Defined.

(* ------------------------------------------------------------------ *)
(** ** The shape of the range finder *)

Lemma power_iterations_shape `{B : Backend} `{!BackendSpec B} n_iter A A_H :
  mshape A_H = (ncols A, nrows A) ->
  forall Q, nrows Q = nrows A ->
  runs (power_iterations n_iter A A_H Q) []
    (fun Q' =>
       mshape Q' =
       (nrows A,
        match n_iter with
        | O => ncols Q
        | S _ => Nat.min (Nat.min (nrows A) (ncols A)) (ncols Q)
        end)).
Proof.
  intros HAH. apply mshape_eq in HAH as [HAHr HAHc].
  induction n_iter as [| n_iter IH]; intros Q HQ.
  - apply runs_ret. apply mshape_eq. auto.
  - cbn [power_iterations].
    eapply runs_bind_nil; [apply runs_tl_dot; lia |]. intros P ->.
    eapply runs_bind_nil; [apply runs_tl_qr |]. intros [Q1 R1] Hr1.
    pose proof (qr_shape (dot A_H Q)) as Hs1. rewrite <- Hr1 in Hs1.
    destruct Hs1 as [HQ1 _]. apply mshape_eq in HQ1 as [HQ1r HQ1c].
    simpl in HQ1r, HQ1c.
    eapply runs_bind_nil; [apply runs_tl_dot; lia |]. intros P2 ->.
    eapply runs_bind_nil; [apply runs_tl_qr |]. intros [Q2 R2] Hr2.
    pose proof (qr_shape (dot A Q1)) as Hs2. rewrite <- Hr2 in Hs2.
    destruct Hs2 as [HQ2 _]. apply mshape_eq in HQ2 as [HQ2r HQ2c].
    simpl in HQ2r, HQ2c.
    eapply runs_weaken; [apply IH; lia |].
    intros Q' HQ'. apply mshape_eq in HQ' as [H1 H2]. apply mshape_eq.
    split; [exact H1 |]. destruct n_iter; lia.
Qed.

(** X9. [randomized_range_finder] with a subspace dimension
    [n_dims >= 0] returns a Q with as many rows as A.  With at least one
    power iteration Q has min(n_dims, A.shape[0], A.shape[1]) columns, as
    the docstring says; with [n_iter = 0] it has min(n_dims, A.shape[0])
    columns, which is more when A has fewer columns than that. *)
Theorem randomized_range_finder_shape `{B : Backend} `{!BackendSpec B}
    (A : mat) (n_dims : Z) (n_iter : nat) (rs : random_state) :
  (0 <= n_dims)%Z ->
  runs (randomized_range_finder A n_dims n_iter rs) []
    (fun Q =>
       mshape Q =
       (nrows A,
        match n_iter with
        | O => Nat.min (Z.to_nat n_dims) (nrows A)
        | S _ => Nat.min (Z.to_nat n_dims) (Nat.min (nrows A) (ncols A))
        end)).
Proof.
  intros Hd. unfold randomized_range_finder, mshape at 1.
  eapply runs_bind_nil; [apply runs_rng_normal; exact Hd |]. intros Q0 ->.
  pose proof (normal_shape rs (ncols A) (Z.to_nat n_dims)) as H0.
  apply mshape_eq in H0 as [H0r H0c].
  eapply runs_bind_nil; [apply runs_tl_dot; lia |]. intros P ->.
  eapply runs_bind_nil; [apply runs_tl_qr |]. intros [Q R] Hr.
  pose proof (qr_shape (dot A (backend_normal rs (ncols A) (Z.to_nat n_dims)))) as Hs.
  rewrite <- Hr in Hs. destruct Hs as [HQ _].
  apply mshape_eq in HQ as [HQr HQc]. simpl in HQr, HQc.
  eapply runs_weaken.
  - apply power_iterations_shape; [reflexivity | exact HQr].
  - intros Q' HQ'. apply mshape_eq in HQ' as [H1 H2]. apply mshape_eq.
    split; [exact H1 |]. destruct n_iter; lia.
Qed.

Lemma randomized_range_finder_shape_witness :
  runs (randomized_range_finder (eye 5 3) 4 0 None) []
       (fun Q => mshape Q = (5, 4)%nat) /\
  runs (randomized_range_finder (eye 5 3) 4 2 None) []
       (fun Q => mshape Q = (5, 3)%nat).
Proof.
  split.
  - apply (randomized_range_finder_shape (B := zero_exact_backend)
             (eye 5 3) 4 0 None). lia.
  - apply (randomized_range_finder_shape (B := zero_exact_backend)
             (eye 5 3) 4 2 None). lia.
Defined.

(* ------------------------------------------------------------------ *)
(** ** [make_svd_non_negative] on a triplet it cannot index *)

Lemma vindex_out_of_bounds (v : vector) (i : nat) :
  (length v <= i)%nat -> vindex v i = Err (IndexError "index is out of bounds").
Proof.
  intros H. unfold vindex. rewrite (proj2 (nth_error_None v i) H). reflexivity.
Qed.

Lemma nndsvd_step_out_of_bounds (U : mat) (Sv : vector) (V : mat) (j : nat)
    (W H : mat) :
  (nrows V <= j)%nat \/ (length Sv <= j)%nat ->
  (j < ncols U)%nat ->
  nndsvd_step U Sv V j (W, H) = Err (IndexError "index is out of bounds").
Proof.
  intros Hbad HjU. unfold nndsvd_step, column_at, row_at.
  rewrite (proj2 (Nat.ltb_lt _ _) HjU). cbn [rbind].
  destruct (Nat.ltb_spec j (nrows V)) as [HjV | HjV]; [| reflexivity].
  cbn [rbind]. destruct Hbad as [Hbad | Hbad]; [lia |].
  rewrite (vindex_out_of_bounds Sv j Hbad).
  destruct (Rltb _ _); reflexivity.
Qed.

Lemma nndsvd_loop_out_of_bounds (U : mat) (Sv : vector) (V : mat) (l : list nat) :
  (forall j, In j l -> (j < ncols U)%nat) ->
  (exists j, In j l /\ ((nrows V <= j)%nat \/ (length Sv <= j)%nat)) ->
  forall W H,
    for_each l (nndsvd_step U Sv V) (W, H)
    = Err (IndexError "index is out of bounds").
Proof.
  induction l as [| j l IH]; intros Hl (b & Hb & Hbad) W H.
  - destruct Hb.
  - cbn [for_each].
    destruct (Nat.lt_ge_cases j (nrows V)) as [HjV | HjV];
      [destruct (Nat.lt_ge_cases j (length Sv)) as [HjS | HjS] |].
    + destruct (nndsvd_step_ok U Sv V j W H (Hl j (or_introl eq_refl)) HjV HjS)
        as (w & h & Hstep & _).
      rewrite Hstep. cbn [rbind]. apply IH.
      * intros j' Hj'. apply Hl. right. exact Hj'.
      * exists b. split; [| exact Hbad].
        destruct Hb as [<- | Hb]; [lia | exact Hb].
    + rewrite (nndsvd_step_out_of_bounds U Sv V j W H (or_intror HjS)
                 (Hl j (or_introl eq_refl))).
      reflexivity.
    + rewrite (nndsvd_step_out_of_bounds U Sv V j W H (or_introl HjV)
                 (Hl j (or_introl eq_refl))).
      reflexivity.
Qed.

(** What [make_svd_non_negative] does with a triplet it cannot index. *)
Lemma make_svd_non_negative_not_indexable `{Bt : Builtins} (t : tensor)
    (U : mat) (Sv : vector) (V : mat) (nntype : string) :
  ~ indexable_triplet U Sv V ->
  make_svd_non_negative t U Sv V nntype
  = Err (IndexError "index is out of bounds").
Proof.
  intros Hni. unfold indexable_triplet in Hni. unfold make_svd_non_negative.
  destruct (Nat.lt_ge_cases 0 (length Sv)) as [HS | HS];
    [| rewrite vindex_out_of_bounds by exact HS; reflexivity].
  rewrite (vindex_ok Sv 0 HS). cbn [rbind]. unfold column_at, row_at.
  destruct (Nat.ltb_spec 0 (ncols U)) as [HU | HU]; [| reflexivity].
  cbn [rbind].
  destruct (Nat.ltb_spec 0 (nrows V)) as [HV | HV]; [| reflexivity].
  cbn [rbind].
  rewrite nndsvd_loop_out_of_bounds; [reflexivity | |].
  - intros j Hj. apply in_seq in Hj. lia.
  - exists (Nat.min (length Sv) (nrows V)). split.
    + apply in_seq. lia.
    + lia.
Qed.

(** X10. On a triplet that it cannot index (U without columns, or S or V
    with fewer components than U has columns), [make_svd_non_negative]
    raises an [IndexError], whatever [nntype] is: the check of [nntype]
    comes after the loop and is never reached. *)
Theorem make_svd_non_negative_index_error `{Bt : Builtins} (t : tensor)
    (U : mat) (Sv : vector) (V : mat) (nntype : string) :
  ~ indexable_triplet U Sv V ->
  make_svd_non_negative t U Sv V nntype
  = Err (IndexError "index is out of bounds").
Proof. apply make_svd_non_negative_not_indexable. Qed.

Lemma make_svd_non_negative_index_error_witness :
  make_svd_non_negative T7 (eye 2 2) [2] (eye 1 2) "no such fill"
  = Err (IndexError "index is out of bounds").
Proof.
  apply (make_svd_non_negative_index_error (Bt := plain_repr)
           T7 (eye 2 2) [2] (eye 1 2) "no such fill").
  unfold indexable_triplet. simpl. lia.
Defined.

(* ------------------------------------------------------------------ *)
(** ** [svd_funs] end to end *)

(** [svd_funs] is its strategy call followed by the post-processing of
    the triplet. *)
Lemma svd_funs_outcome `{B : Backend} `{Bt : Builtins} (t : tensor)
    (svd_type : string) (n_eigenvecs : option Z) (flip_svd non_negative : bool)
    (nntype : string) (u_based_decision : bool) (kw : kwargs)
    (r : mat * vector * mat) :
  outcome (run_strategy t svd_type n_eigenvecs kw) = Ok r ->
  outcome (svd_funs t svd_type n_eigenvecs flip_svd non_negative nntype
             u_based_decision kw)
  = post_process t flip_svd non_negative nntype u_based_decision r.
Proof.
  intros Hr. unfold svd_funs. fold (run_strategy t svd_type n_eigenvecs kw).
  destruct (run_strategy t svd_type n_eigenvecs kw) as [tr res].
  simpl in Hr. subst res. destruct r as [[U Sv] V].
  unfold post_process, bind, lift, ret, outcome.
  destruct flip_svd.
  - destruct (svd_flip U V u_based_decision) as [[U' V'] | e]; simpl; [| reflexivity].
    destruct non_negative; simpl; [| reflexivity].
    destruct (make_svd_non_negative t U' Sv V' nntype); reflexivity.
  - simpl. destruct non_negative; simpl; [| reflexivity].
    destruct (make_svd_non_negative t U Sv V nntype); reflexivity.
Qed.

Lemma svd_flip_keeps_shapes (U V : mat) (u_based_decision : bool) :
  deciding_axis_empty U V u_based_decision = false ->
  exists U' V',
    svd_flip U V u_based_decision = Ok (U', V') /\
    mshape U' = mshape U /\ mshape V' = mshape V.
Proof.
  unfold deciding_axis_empty. destruct u_based_decision; intros H;
    apply Nat.eqb_neq in H.
  - rewrite svd_flip_u_based by exact H. eexists _, _. auto.
  - rewrite svd_flip_v_based by exact H. eexists _, _. auto.
Qed.

(** The post-processing of a triplet whose matrices are not empty. *)
Lemma post_process_shapes `{Bt : Builtins} (t : tensor) (flip_svd : bool)
    (non_negative : bool) (nntype : string) (u_based_decision : bool)
    (U : mat) (Sv : vector) (V : mat) :
  nrows U <> 0%nat -> ncols V <> 0%nat ->
  exists U' V',
    mshape U' = mshape U /\ mshape V' = mshape V /\
    post_process t flip_svd non_negative nntype u_based_decision (U, Sv, V)
    = rbind (if non_negative
             then make_svd_non_negative t U' Sv V' nntype
             else Ok U')
        (fun W => Ok (W, Sv, V')).
Proof.
  intros HU HV. unfold post_process. destruct flip_svd.
  - destruct (svd_flip_keeps_shapes U V u_based_decision)
      as (U' & V' & Hflip & HU' & HV').
    { unfold deciding_axis_empty. destruct u_based_decision;
        apply Nat.eqb_neq; assumption. }
    exists U', V'. rewrite Hflip. auto.
  - exists U, V. auto.
Qed.

Lemma partial_svd_default_sliced `{B : Backend} `{!BackendSpec B}
    (t : tensor) (rows cols : nat) (rs : random_state) :
  shape t = [rows; cols] ->
  runs (partial_svd t None rs) (conversion_notice t)
       (sliced_triplet rows cols (Z.of_nat (Nat.max rows cols))).
Proof.
  intros E.
  pose proof (mshape_as_matrix t rows cols E) as HA.
  apply mshape_eq in HA as [HAr HAc].
  unfold partial_svd. enter_2d E.
  rewrite <- (app_nil_r (conversion_notice t)).
  eapply runs_bind; [apply runs_conversion_notice |]. intros _ _.
  apply dense_svd_sliced; auto; try lia; try discriminate;
    unfold slice_stop; lia.
Qed.

Lemma symeig_svd_default_sliced `{B : Backend} `{!BackendSpec B}
    (t : tensor) (rows cols : nat) :
  shape t = [rows; cols] ->
  runs (symeig_svd t None) []
       (fun '(U, Sv, V) =>
          mshape U = (rows, rows) /\
          length Sv = Nat.min rows cols /\
          mshape V = (cols, cols)).
Proof.
  intros E.
  assert (Hdefault : symeig_svd t None
                     = symeig_svd t (Some (Z.of_nat (Nat.max rows cols)))).
  { unfold symeig_svd. enter_2d E. reflexivity. }
  rewrite Hdefault.
  destruct (symeig_svd_runs t rows cols E) as (Uf & Vf & HUf & HVf & Hrun).
  destruct (symeig_values_spec t rows cols E) as (Hlen & _ & _).
  apply mshape_eq in HUf as [HUr HUc]. apply mshape_eq in HVf as [HVr HVc].
  eapply runs_weaken; [apply Hrun; lia |].
  intros r ->.
  split; [apply mshape_eq; simpl; rewrite slice_stop_nonneg by lia; lia |].
  split; [rewrite length_vslice, slice_stop_nonneg by lia; lia |].
  apply mshape_eq; simpl. rewrite slice_stop_nonneg by lia. lia.
Qed.

(** The default rank on a matrix with more rows than columns, with
    [non_negative=True]: the triplet of the strategy cannot be indexed by
    the NNDSVD loop. *)
Lemma svd_funs_default_rank_index_error
    `{B : Backend} `{!BackendSpec B} `{Bt : Builtins}
    (t : tensor) (rows cols : nat) (svd_type : string) (flip_svd : bool)
    (nntype : string) (u_based_decision : bool) (kw : kwargs) :
  shape t = [rows; cols] ->
  (0 < cols < rows)%nat ->
  In svd_type ["partial_svd"; "truncated_svd"; "symeig_svd"]%string ->
  outcome (svd_funs t svd_type None flip_svd true nntype u_based_decision kw)
  = Err (IndexError "index is out of bounds").
Proof.
  intros E Hdims Hin.
  assert (Hstrat : exists U Sv V,
            outcome (run_strategy t svd_type None kw) = Ok (U, Sv, V) /\
            mshape U = (rows, rows) /\ length Sv = cols /\
            mshape V = (cols, cols)).
  { destruct Hin as [<- | [<- | [<- | []]]].
    - change (run_strategy t "partial_svd" None kw)
        with (partial_svd t None (kw_random_state kw)).
      destruct (partial_svd_default_sliced t rows cols (kw_random_state kw) E)
        as ([[U Sv] V] & Hout & _ & HU & HS & _ & _ & HV).
      exists U, Sv, V. rewrite Hout, HU, HS, HV.
      repeat split; f_equal; lia.
    - change (run_strategy t "truncated_svd" None kw)
        with (truncated_svd t None).
      destruct (truncated_svd_sliced t rows cols None E)
        as ([[U Sv] V] & Hout & _ & HU & HS & _ & _ & HV);
        [unfold requested_rank; lia |].
      unfold requested_rank in *.
      exists U, Sv, V. rewrite Hout, HU, HS, HV.
      repeat split; f_equal; lia.
    - change (run_strategy t "symeig_svd" None kw) with (symeig_svd t None).
      destruct (symeig_svd_default_sliced t rows cols E)
        as ([[U Sv] V] & Hout & _ & HU & HS & HV).
      exists U, Sv, V. rewrite Hout, HU, HS, HV.
      repeat split; f_equal; lia. }
  destruct Hstrat as (U & Sv & V & Hout & HU & HS & HV).
  rewrite (svd_funs_outcome t svd_type None flip_svd true nntype
             u_based_decision kw _ Hout).
  apply mshape_eq in HU as [HUr HUc]. apply mshape_eq in HV as [HVr HVc].
  destruct (post_process_shapes t flip_svd true nntype u_based_decision U Sv V)
    as (U' & V' & HU' & HV' & Hpost); [lia | lia |].
  rewrite Hpost. apply mshape_eq in HU' as [HU'r HU'c].
  rewrite make_svd_non_negative_not_indexable; [reflexivity |].
  unfold indexable_triplet. lia.
Qed.

(** X11. With the default rank ([n_eigenvecs=None]) on a matrix with more
    rows than columns, [svd_funs] with [non_negative=True] raises an
    [IndexError] under 'partial_svd', 'truncated_svd' and 'symeig_svd':
    the strategy returns a U with [rows] columns but only [cols]
    singular values, and the NNDSVD loop runs over the columns of U. *)
Theorem svd_funs_default_rank_non_negative_fails
    `{B : Backend} `{!BackendSpec B} `{Bt : Builtins}
    (t : tensor) (rows cols : nat) (svd_type : string) (flip_svd : bool)
    (nntype : string) (u_based_decision : bool) (kw : kwargs) :
  shape t = [rows; cols] ->
  (0 < cols < rows)%nat ->
  In svd_type ["partial_svd"; "truncated_svd"; "symeig_svd"]%string ->
  outcome (svd_funs t svd_type None flip_svd true nntype u_based_decision kw)
  = Err (IndexError "index is out of bounds").
Proof. apply svd_funs_default_rank_index_error. Qed.

(** C7 as stated fails for [make_svd_non_negative]: the test of [nntype]
    comes after the indexing of S, U and V, so on a triplet that cannot
    be indexed an invalid [nntype] gives an [IndexError], not a
    [ValueError].  The triplet below is the one 'truncated_svd' returns
    for the 5 x 3 zero matrix at the default rank (U with 5 columns, 3
    singular values), and [svd_funs] reaches [make_svd_non_negative] with
    it. *)
Lemma invalid_nntype_index_error_counterexample :
  make_svd_non_negative (zeros_tensor 5 3) (eye 5 5) [0; 0; 0] (eye 3 3)
                        "bogus"
  = Err (IndexError "index is out of bounds") /\
  outcome (svd_funs (zeros_tensor 5 3) "truncated_svd" None true true "bogus"
             true default_kwargs)
  = Err (IndexError "index is out of bounds").
Proof.
  split.
  - apply (make_svd_non_negative_not_indexable (Bt := plain_repr)).
    unfold indexable_triplet. simpl. lia.
  - apply (svd_funs_default_rank_index_error (B := zero_exact_backend)
             (Bt := plain_repr) (zeros_tensor 5 3) 5 3 "truncated_svd" true
             "bogus" true default_kwargs eq_refl).
    + lia.
    + right. left. reflexivity.
Qed.

Lemma svd_funs_default_rank_non_negative_fails_witness :
  outcome (svd_funs (zeros_tensor 5 3) "partial_svd" None true true "nndsvd"
             true default_kwargs)
  = Err (IndexError "index is out of bounds").
Proof.
  apply (svd_funs_default_rank_non_negative_fails (B := zero_exact_backend)
           (Bt := plain_repr) (zeros_tensor 5 3) 5 3 "partial_svd" true
           "nndsvd" true default_kwargs eq_refl).
  - lia.
  - left. reflexivity.
Defined.

Lemma sliced_triplet_rank_k (rows cols k : nat) (r : mat * vector * mat) :
  (0 < k <= Nat.min rows cols)%nat ->
  sliced_triplet rows cols (Z.of_nat k) r -> rank_k_triplet rows cols k r.
Proof.
  intros Hk. destruct r as [[U Sv] V]. unfold sliced_triplet, rank_k_triplet.
  rewrite Nat2Z.id.
  replace (Nat.min k rows) with k by lia.
  replace (Nat.min k cols) with k by lia.
  replace (Nat.min k (Nat.min rows cols)) with k by lia.
  auto.
Qed.

(** Each strategy that [svd_funs] can call returns a rank-k triplet. *)
Lemma run_strategy_rank_k `{B : Backend} `{!BackendSpec B} `{Bt : Builtins}
    (t : tensor) (rows cols k : nat) (svd_type : string) (kw : kwargs) :
  shape t = [rows; cols] ->
  (0 < k <= Nat.min rows cols)%nat ->
  (0 <= kw_n_oversamples kw)%Z ->
  In svd_type SVD_FUNS ->
  exists r,
    outcome (run_strategy t svd_type (Some (Z.of_nat k)) kw) = Ok r /\
    rank_k_triplet rows cols k r.
Proof.
  intros E Hk Ho Hin.
  destruct Hin as [<- | [<- | [<- | [<- | []]]]].
  - change (run_strategy t "partial_svd" (Some (Z.of_nat k)) kw)
      with (partial_svd t (Some (Z.of_nat k)) (kw_random_state kw)).
    destruct (partial_svd_sliced t rows cols (Z.of_nat k) (kw_random_state kw) E)
      as (r & Hout & _ & Hr); [lia |].
    exists r. split; [exact Hout | apply sliced_triplet_rank_k; auto].
  - change (run_strategy t "truncated_svd" (Some (Z.of_nat k)) kw)
      with (truncated_svd t (Some (Z.of_nat k))).
    destruct (truncated_svd_sliced t rows cols (Some (Z.of_nat k)) E)
      as (r & Hout & _ & Hr); [simpl; lia |].
    exists r. split; [exact Hout | apply sliced_triplet_rank_k; auto].
  - change (run_strategy t "symeig_svd" (Some (Z.of_nat k)) kw)
      with (symeig_svd t (Some (Z.of_nat k))).
    destruct (symeig_svd_runs t rows cols E) as (Uf & Vf & HUf & HVf & Hrun).
    destruct (symeig_values_spec t rows cols E) as (Hlen & Hsort & Hge).
    apply mshape_eq in HUf as [HUr HUc]. apply mshape_eq in HVf as [HVr HVc].
    destruct (Hrun (Z.of_nat k)) as (r & Hout & _ & ->); [lia |].
    eexists. split; [exact Hout |]. unfold rank_k_triplet.
    split; [apply mshape_eq; simpl; rewrite slice_stop_nonneg by lia; lia |].
    split; [rewrite length_vslice, slice_stop_nonneg by lia; lia |].
    split; [apply sorted_descending_firstn, Hsort |].
    split.
    + apply all_nonneg_firstn.
      apply (all_nonneg_of_ge (sqrt (eps (tdtype t)))); [apply sqrt_pos | exact Hge].
    + apply mshape_eq; simpl. rewrite slice_stop_nonneg by lia. lia.
  - change (run_strategy t "randomized_svd" (Some (Z.of_nat k)) kw)
      with (randomized_svd t (Some (Z.of_nat k)) (kw_n_oversamples kw)
              (kw_n_iter kw) (kw_random_state kw)).
    destruct (randomized_svd_runs t rows cols (Z.of_nat k) (kw_n_oversamples kw)
                (kw_n_iter kw) (kw_random_state kw) E)
      as ([[U Sv] V] & Hout & _ & HUr & HVc & Hsort & Hnn & Hexact); [lia | lia |].
    destruct Hexact as (HUc & HS & HVr); [lia | lia |].
    rewrite Nat2Z.id in *.
    eexists. split; [exact Hout |]. unfold rank_k_triplet.
    rewrite !mshape_eq. auto 10.
Qed.

(** X12. [svd_funs] end to end.  For a strategy name of SVD_FUNS, a 2-D
    input of shape (rows, cols), a rank 0 < k <= min(rows, cols), a
    non-negative oversampling and, when [non_negative] is set, an
    [nntype] of 'nndsvd' or 'nndsvda', the call returns (U, S, V) with
    U of shape rows x k, S of k non-negative non-increasing entries and V
    of shape k x cols, whatever [flip_svd], [non_negative] and
    [u_based_decision] are: neither the sign flip nor the non-negative
    initialisation changes a shape, and S is the strategy's S. *)
Theorem svd_funs_returns_rank_k_triplet
    `{B : Backend} `{!BackendSpec B} `{Bt : Builtins}
    (t : tensor) (rows cols k : nat) (svd_type : string)
    (flip_svd non_negative : bool) (nntype : string)
    (u_based_decision : bool) (kw : kwargs) :
  shape t = [rows; cols] ->
  (0 < k <= Nat.min rows cols)%nat ->
  (0 <= kw_n_oversamples kw)%Z ->
  In svd_type SVD_FUNS ->
  (non_negative = true ->
   nntype = "nndsvd"%string \/ nntype = "nndsvda"%string) ->
  exists r,
    outcome (svd_funs t svd_type (Some (Z.of_nat k)) flip_svd non_negative
               nntype u_based_decision kw) = Ok r /\
    rank_k_triplet rows cols k r.
Proof.
  intros E Hk Ho Hin Hnn.
  destruct (run_strategy_rank_k t rows cols k svd_type kw E Hk Ho Hin)
    as ([[U Sv] V] & Hout & HU & HS & Hsort & Hpos & HV).
  rewrite (svd_funs_outcome t svd_type _ flip_svd non_negative nntype
             u_based_decision kw _ Hout).
  pose proof HU as HU0. pose proof HV as HV0.
  apply mshape_eq in HU0 as [HUr HUc]. apply mshape_eq in HV0 as [HVr HVc].
  destruct (post_process_shapes t flip_svd non_negative nntype
              u_based_decision U Sv V)
    as (U' & V' & HU' & HV' & Hpost); [lia | lia |].
  rewrite Hpost. rewrite HU in HU'. rewrite HV in HV'.
  destruct non_negative.
  - destruct (make_svd_non_negative_unfold t U' Sv V' nntype)
      as (W & HW & _ & Hrun).
    { apply mshape_eq in HU' as [_ HU'c]. apply mshape_eq in HV' as [HV'r _].
      unfold indexable_triplet. lia. }
    rewrite Hrun.
    assert (Hshape : forall W', mshape W' = mshape W ->
              rank_k_triplet rows cols k (W', Sv, V')).
    { intros W' HW'. unfold rank_k_triplet.
      rewrite HW', HW, HU', HV'. auto. }
    destruct (Hnn eq_refl) as [-> | ->].
    + change (("nndsvd" =? "nndsvd")%string) with true. cbv iota.
      eexists. split; [reflexivity |]. apply Hshape. reflexivity.
    + change (("nndsvda" =? "nndsvd")%string) with false.
      change (("nndsvda" =? "nndsvda")%string) with true. cbv iota.
      eexists. split; [reflexivity |]. apply Hshape. reflexivity.
  - simpl. eexists. split; [reflexivity |]. unfold rank_k_triplet.
    rewrite HU', HV'. auto.
Qed.

Lemma svd_funs_returns_rank_k_triplet_witness :
  exists r,
    outcome (svd_funs (zeros_tensor 5 3) "randomized_svd" (Some 2%Z) true true
               "nndsvda" false default_kwargs) = Ok r /\
    rank_k_triplet 5 3 2 r.
Proof.
  apply (svd_funs_returns_rank_k_triplet (B := zero_exact_backend)
           (Bt := plain_repr) (zeros_tensor 5 3) 5 3 2 "randomized_svd"
           true true "nndsvda" false default_kwargs eq_refl).
  - simpl. lia.
  - simpl. lia.
  - simpl. auto.
  - intros _. right. reflexivity.
Defined.

Lemma run_strategy_non_2d `{B : Backend} `{Bt : Builtins} (t : tensor)
    (svd_type : string) (n_eigenvecs : option Z) (kw : kwargs) :
  ndim t <> 2%nat -> In svd_type SVD_FUNS ->
  run_strategy t svd_type n_eigenvecs kw
  = ([], Err (ValueError (ndim_message (ndim t)))).
Proof.
  intros Hnd Hin.
  assert (Hne : (ndim t =? 2)%nat = false) by (apply Nat.eqb_neq; exact Hnd).
  destruct Hin as [<- | [<- | [<- | [<- | []]]]].
  - change (run_strategy t "partial_svd" n_eigenvecs kw)
      with (partial_svd t n_eigenvecs (kw_random_state kw)).
    unfold partial_svd. rewrite Hne. reflexivity.
  - change (run_strategy t "truncated_svd" n_eigenvecs kw)
      with (truncated_svd t n_eigenvecs).
    unfold truncated_svd. rewrite Hne. reflexivity.
  - change (run_strategy t "symeig_svd" n_eigenvecs kw)
      with (symeig_svd t n_eigenvecs).
    unfold symeig_svd. rewrite Hne. reflexivity.
  - change (run_strategy t "randomized_svd" n_eigenvecs kw)
      with (randomized_svd t n_eigenvecs (kw_n_oversamples kw)
              (kw_n_iter kw) (kw_random_state kw)).
    unfold randomized_svd. rewrite Hne. reflexivity.
Qed.

(** X13. [svd_funs] passes the dimension error on: with a strategy name
    of SVD_FUNS and an input that is not 2-dimensional it raises the
    [ValueError] of the dimension check, with an empty trace; no flip
    and no non-negative initialisation is attempted. *)
Theorem svd_funs_rejects_non_2d `{B : Backend} `{Bt : Builtins} (t : tensor)
    (svd_type : string) (n_eigenvecs : option Z) (flip_svd non_negative : bool)
    (nntype : string) (u_based_decision : bool) (kw : kwargs) :
  ndim t <> 2%nat -> In svd_type SVD_FUNS ->
  svd_funs t svd_type n_eigenvecs flip_svd non_negative nntype
           u_based_decision kw
  = ([], Err (ValueError (ndim_message (ndim t)))).
Proof.
  intros Hnd Hin. unfold svd_funs.
  fold (run_strategy t svd_type n_eigenvecs kw).
  rewrite (run_strategy_non_2d t svd_type n_eigenvecs kw Hnd Hin).
  reflexivity.
Qed.

Lemma svd_funs_rejects_non_2d_witness :
  svd_funs cube_tensor "symeig_svd" None true true "nndsvd" true default_kwargs
  = ([], Err (ValueError (ndim_message 3))).
Proof.
  apply (svd_funs_rejects_non_2d (B := zero_exact_backend) (Bt := plain_repr)
           cube_tensor "symeig_svd" None true true "nndsvd" true default_kwargs).
  - simpl. discriminate.
  - simpl. auto.
Defined.

Lemma bind_ret_l {A C : Type} (a : A) (k : A -> M C) : bind (ret a) k = k a.
Proof. unfold bind, ret. destruct (k a). reflexivity. Qed.

(** X14. An oversampling so negative that [n_eigenvecs + n_oversamples]
    falls below 0 makes [randomized_svd] raise a [ValueError]: the
    range finder asks the generator for a matrix with a negative number
    of columns, before any product is computed.  This holds for every
    backend. *)
Theorem randomized_svd_rejects_negative_dimension `{B : Backend}
    (t : tensor) (rows cols : nat) (k n_oversamples : Z) (n_iter : nat)
    (rs : random_state) :
  shape t = [rows; cols] ->
  (k <= Z.of_nat (Nat.max rows cols))%Z ->
  (k + n_oversamples < 0)%Z ->
  randomized_svd t (Some k) n_oversamples n_iter rs
  = ([], Err (ValueError "negative dimensions are not allowed")).
Proof.
  intros E Hk Hneg. unfold randomized_svd. enter_2d E.
  rewrite clamp_rank_in_range by exact Hk.
  rewrite bind_ret_l.
  unfold randomized_range_finder, mshape, rng_normal.
  rewrite (proj2 (Z.ltb_lt _ 0)) by lia.
  match goal with |- context [if ?c then _ else _] => destruct c end;
    reflexivity.
Qed.

Lemma randomized_svd_rejects_negative_dimension_witness :
  randomized_svd (zeros_tensor 5 3) (Some 2%Z) (-3) 2 None
  = ([], Err (ValueError "negative dimensions are not allowed")).
Proof.
  apply (randomized_svd_rejects_negative_dimension (B := zero_exact_backend)
           (zeros_tensor 5 3) 5 3 2 (-3) 2 None eq_refl); simpl; lia.
Defined.

(* ------------------------------------------------------------------ *)
(** ** The leading column of W *)

Lemma nndsvd_loop_keeps_leading_column (U : mat) (Sv : vector) (V : mat)
    (l : list nat) :
  (forall j, In j l ->
     (1 <= j)%nat /\ (j < ncols U)%nat /\ (j < nrows V)%nat /\
     (j < length Sv)%nat) ->
  forall W H W' H',
    for_each l (nndsvd_step U Sv V) (W, H) = Ok (W', H') ->
    forall i, (i < nrows W)%nat -> (0 < ncols W)%nat ->
      get W' i 0 = get W i 0.
Proof.
  induction l as [| j l IH]; intros Hl W H W' H' Hrun i Hi Hc.
  - cbn [for_each] in Hrun. injection Hrun as -> _. reflexivity.
  - destruct (Hl j (or_introl eq_refl)) as (Hj1 & HjU & HjV & HjS).
    destruct (nndsvd_step_ok U Sv V j W H HjU HjV HjS) as (w & h & Hstep & _).
    cbn [for_each] in Hrun. rewrite Hstep in Hrun. cbn [rbind] in Hrun.
    rewrite (IH (fun j' Hj' => Hl j' (or_intror Hj')) _ _ _ _ Hrun i)
      by (simpl; auto).
    unfold update_col. rewrite get_tabulate2 by auto.
    destruct (Nat.eqb_spec 0 j); [lia | reflexivity].
Qed.

(** X15. Under 'nndsvda', the leading column of W comes from the leading
    singular triplet alone: entry i is sqrt(S[0]) * |U[i, 0]|, replaced
    by the mean of the tensor when it is below epsilon.  The loop over
    the other components never writes to it. *)
Theorem nndsvda_leading_column `{Bt : Builtins} (t : tensor)
    (U : mat) (Sv : vector) (V W : mat) :
  indexable_triplet U Sv V ->
  make_svd_non_negative t U Sv V "nndsvda" = Ok W ->
  forall i, (i < nrows U)%nat ->
    get W i 0 =
    (let x := sqrt (nth 0 Sv 0) * Rabs (get U i 0) in
     if Rltb x (eps (tdtype t)) then mean t else x).
Proof.
  intros (Hk & HS & HV) Hrun i Hi. unfold make_svd_non_negative in Hrun.
  rewrite (vindex_ok Sv 0) in Hrun by lia. unfold column_at, row_at in Hrun.
  rewrite (proj2 (Nat.ltb_lt 0 (ncols U))) in Hrun by lia.
  rewrite (proj2 (Nat.ltb_lt 0 (nrows V))) in Hrun by lia.
  cbn [rbind] in Hrun.
  match type of Hrun with
  | rbind (for_each _ _ (?W0, ?H0)) _ = _ =>
      set (Wz := W0) in *; set (Hz := H0) in *
  end.
  destruct (nndsvd_loop_ok U Sv V (seq 1 (ncols U - 1))) with (W := Wz) (H := Hz)
    as (W1 & H1 & Hloop & Hshape & _).
  { intros j Hj. apply in_seq in Hj. lia. }
  rewrite Hloop in Hrun. cbn [rbind] in Hrun.
  change (("nndsvda" =? "nndsvd")%string) with false in Hrun.
  change (("nndsvda" =? "nndsvda")%string) with true in Hrun.
  cbv iota in Hrun. injection Hrun as <-.
  apply mshape_eq in Hshape as [HW1r HW1c]. simpl in HW1r, HW1c.
  unfold where_lt, mmap. rewrite get_tabulate2 by lia.
  assert (Hlead : get W1 i 0 = sqrt (nth 0 Sv 0) * Rabs (get U i 0)).
  { assert (Hrange : forall j, In j (seq 1 (ncols U - 1)) ->
              (1 <= j)%nat /\ (j < ncols U)%nat /\ (j < nrows V)%nat /\
              (j < length Sv)%nat).
    { intros j Hj. apply in_seq in Hj. lia. }
    rewrite (nndsvd_loop_keeps_leading_column U Sv V _ Hrange Wz Hz W1 H1 Hloop i)
      by (simpl; lia).
    unfold Wz, update_col, zeros_like. simpl nrows; simpl ncols.
    rewrite get_tabulate2 by lia. rewrite Nat.eqb_refl.
    unfold vscale, col. rewrite !map_map.
    apply (nth_map_seq (fun i => sqrt (nth 0 Sv 0) * Rabs (get U i 0))).
    exact Hi. }
  rewrite Hlead. reflexivity.
Qed.

Lemma make_svd_non_negative_T8 :
  make_svd_non_negative T8 U7 S8 V7 "nndsvda" = Ok W8.
Proof.
  R_eval. do 2 f_equal.
  repeat match goal with
         | |- @eq (list _) (_ :: _) (_ :: _) => f_equal
         end; lra.
Qed.

Lemma nndsvda_leading_column_witness :
  make_svd_non_negative T8 U7 S8 V7 "nndsvda" = Ok W8 /\
  forall i, (i < nrows U7)%nat ->
    get W8 i 0 =
    (let x := sqrt (nth 0 S8 0) * Rabs (get U7 i 0) in
     if Rltb x (eps (tdtype T8)) then mean T8 else x).
Proof.
  split; [exact make_svd_non_negative_T8 |].
  apply (nndsvda_leading_column (Bt := plain_repr) T8 U7 S8 V7 W8).
  - unfold indexable_triplet. simpl. lia.
  - exact make_svd_non_negative_T8.
Defined.
